(** * Process retrieval service: record fetcher and batch controller

    A shallow embedding of [src/services/processService.js]:

    - [fetchProcessData]: the single-item fetch (identifier normalisation,
      session request, query request, table parsing, failure classification);
    - [formatarMovimento]: the record builder;
    - [fetchBatchProcesses]: the sliding-window batch controller with its
      consecutive-connection-error circuit breaker and cooperative
      cancellation, as the transition system [step];
    - [exportToExcel]: the rows of the exported sheet and the name of the
      file;

    and, of [src/index.js], the handler of [GET /api/process] and the two
    filters the batch routes apply to the records of a batch.

    Modelling conventions.

    - JavaScript strings are [string]; the built-ins the code calls
      ([includes], [substring], [padStart], [toLowerCase], [trim],
      [Number.prototype.toString]) live in module [Js].  A string of the
      model is the UTF-8 encoding of the JavaScript string.  [trim] strips
      every white space and line terminator of JavaScript.  [toLowerCase]
      is given for the characters of U+0000 to U+00FF, which cover the
      error messages the catch block tests and Portuguese text; a theorem
      about the case of other text says so in a hypothesis ([Js.latin1]).
      [substring] and [padStart] count bytes, which are the characters of
      the numeric identifiers they are applied to.
    - Sequence numbers are mathematical integers ([Z]); the callers pass
      [Number(start) || 1], and the model covers the integer values below
      2^53, on which [i++] is exact.
    - A network call is an answer of the environment: it either fulfils with
      a value or rejects with an error object ([Settled]).  Extracting the
      cells of a row does not throw, so the [try] around each row never
      skips one.
    - The asynchronous controller is a transition system.  One transition is
      one turn of the event loop with its microtasks run to completion: the
      call of the function up to its first wait on in-flight work, the
      answer of one fetch, or an [abort()] by the owner of the controller.
      The answer of a fetch arrives in a turn of its own; in that turn the
      task body runs, then the [finally] reaction removes the promise from
      [active] (it was registered before the race), then the loop, if it
      was waiting on the race, wakes up, re-tests the window and admits
      further identifiers until it waits again.
    - The progress callback does not throw.  The promise returned by
      [p.finally(...)] is awaited by no one; what the host does with its
      rejection is outside the model. *)

From Stdlib Require Import ZArith Ascii String List Bool Lia.
From stdpp Require Import base numbers option list strings pretty gmap.

Local Open Scope Z_scope.
#[local] Set Warnings "-clear-no-such-hyp".

(** ** JavaScript string built-ins *)

Module Js.

(** [s.includes(pat)] *)
Fixpoint includes (s pat : string) : bool :=
  if String.prefix pat s then true
  else match s with
       | EmptyString => false
       | String _ s' => includes s' pat
       end.

Fixpoint take (n : nat) (s : string) : string :=
  match n, s with
  | S n', String c s' => String c (take n' s')
  | _, _ => EmptyString
  end.

(** [s.substring(n)] *)
Fixpoint substring_from (n : nat) (s : string) : string :=
  match n, s with
  | S n', String _ s' => substring_from n' s'
  | _, _ => s
  end.

(** [s.substring(from, to)] for [from <= to]; indices past the end are
    clamped, as in JavaScript. *)
Definition substring (from to : nat) (s : string) : string :=
  take (to - from) (substring_from from s).

Fixpoint repeat_char (n : nat) (c : ascii) : string :=
  match n with
  | O => EmptyString
  | S n' => String c (repeat_char n' c)
  end.

(** [s.padStart(len, c)] for a one-character filler. *)
Definition padStart (len : nat) (c : ascii) (s : string) : string :=
  repeat_char (len - String.length s) c +:+ s.

(** The strings of the model are the UTF-8 encodings of the JavaScript
    strings: a character of U+0080 to U+07FF is two bytes, one of U+0800 to
    U+FFFF three. *)

Definition lower_char (c : ascii) : ascii :=
  let n := N_of_ascii c in
  if ((65 <=? n) && (n <=? 90))%N then ascii_of_N (n + 32) else c.

(** The second byte of a character of U+00C0 to U+00FF, whose first byte is
    C3: the capital letters U+00C0 to U+00DE, the sign U+00D7 apart, have
    their small letter 32 places further. *)
Definition lower_latin1 (c : ascii) : ascii :=
  let n := N_of_ascii c in
  if ((128 <=? n) && (n <=? 158) && negb (n =? 151))%N then ascii_of_N (n + 32)
  else c.

(** [s.toLowerCase()], for the letters of U+0000 to U+00FF (Basic Latin and
    Latin-1 Supplement); the other characters are left as they are. *)
Fixpoint toLowerCase (s : string) : string :=
  match s with
  | EmptyString => EmptyString
  | String c s' =>
      if (N_of_ascii c =? 195)%N then
        match s' with
        | String d s'' => String c (String (lower_latin1 d) (toLowerCase s''))
        | EmptyString => String c EmptyString
        end
      else String (lower_char c) (toLowerCase s')
  end.

(** The strings all of whose characters are of U+0000 to U+00FF: on these
    [toLowerCase] above is the one of JavaScript. *)
Fixpoint latin1 (s : string) : bool :=
  match s with
  | EmptyString => true
  | String c s' =>
      let n := N_of_ascii c in
      if (n <? 128)%N then latin1 s'
      else if ((n =? 194) || (n =? 195))%N then
        match s' with
        | String d s'' =>
            let m := N_of_ascii d in
            ((128 <=? m) && (m <? 192))%N && latin1 s''
        | EmptyString => false
        end
      else false
  end.

(** White space and line terminators, as [trim] understands them.  Of one
    byte: U+0009 to U+000D and U+0020. *)
Definition is_white (c : ascii) : bool :=
  let n := N_of_ascii c in
  ((9 <=? n) && (n <=? 13) || (n =? 32))%N.

(** Of two bytes: U+00A0 (C2 A0). *)
Definition is_white2 (c1 c2 : ascii) : bool :=
  ((N_of_ascii c1 =? 194) && (N_of_ascii c2 =? 160))%N.

(** Of three bytes: U+1680 (E1 9A 80), U+2000 to U+200A (E2 80 80 to
    E2 80 8A), U+2028 and U+2029 (E2 80 A8, E2 80 A9), U+202F (E2 80 AF),
    U+205F (E2 81 9F), U+3000 (E3 80 80) and U+FEFF (EF BB BF). *)
Definition is_white3 (c1 c2 c3 : ascii) : bool :=
  let n1 := N_of_ascii c1 in
  let n2 := N_of_ascii c2 in
  let n3 := N_of_ascii c3 in
  ((n1 =? 225) && (n2 =? 154) && (n3 =? 128)
   || (n1 =? 226) && (n2 =? 128) &&
      ((128 <=? n3) && (n3 <=? 138) || (n3 =? 168) || (n3 =? 169) || (n3 =? 175))
   || (n1 =? 226) && (n2 =? 129) && (n3 =? 159)
   || (n1 =? 227) && (n2 =? 128) && (n3 =? 128)
   || (n1 =? 239) && (n2 =? 187) && (n3 =? 191))%N.

(** The string without the white space it starts with; with [back] the
    bytes are read in reverse, for the white space a string ends with. *)
Fixpoint strip (back : bool) (s : string) : string :=
  match s with
  | EmptyString => EmptyString
  | String c1 s1 =>
      if is_white c1 then strip back s1
      else
        match s1 with
        | EmptyString => s
        | String c2 s2 =>
            if (if back then is_white2 c2 c1 else is_white2 c1 c2)
            then strip back s2
            else
              match s2 with
              | EmptyString => s
              | String c3 s3 =>
                  if (if back then is_white3 c3 c2 c1 else is_white3 c1 c2 c3)
                  then strip back s3
                  else s
              end
        end
  end.

(** [s.trimStart()] *)
Definition trimStart (s : string) : string := strip false s.

(** [s.trimEnd()] *)
Definition trimEnd (s : string) : string :=
  String.rev (strip true (String.rev s)).

(** [s.trim()] *)
Definition trim (s : string) : string := trimEnd (trimStart s).

(** [i.toString()] of an integer: decimal digits, with a minus sign for
    negative numbers. *)
Definition toString (i : Z) : string := pretty i.

(** [c.split(sep)[0]] for a one-character separator. *)
Fixpoint before (sep : ascii) (s : string) : string :=
  match s with
  | EmptyString => EmptyString
  | String c s' => if Ascii.eqb c sep then EmptyString else String c (before sep s')
  end.

(** [xs.join(sep)] *)
Fixpoint join (sep : string) (xs : list string) : string :=
  match xs with
  | [] => EmptyString
  | [x] => x
  | x :: rest => x +:+ sep +:+ join sep rest
  end.

(** [s.split(sep)] for a one-character separator: never the empty list. *)
Fixpoint split (sep : ascii) (s : string) : list string :=
  match s with
  | EmptyString => [EmptyString]
  | String c s' =>
      if Ascii.eqb c sep then EmptyString :: split sep s'
      else match split sep s' with
           | x :: rest => String c x :: rest
           | [] => [String c EmptyString]
           end
  end.

End Js.

(** ** Data model *)

(** A record is a JavaScript object with string values; the order of its keys
    is the insertion order, which the exporter uses for its columns. *)
Definition ProcessRecord : Type := list (string * string).

(** The error objects the [catch] block inspects. *)
Record JsError := {
  isCancel : bool;          (* axios.isCancel(err) *)
  name : string;            (* err.name *)
  code : option string;     (* err.code *)
  message : string          (* String(err.message || "") *)
}.

(** What the parsing step reads off the response document. *)
Record Document := {
  has_table : bool;        (* $("table#proc_movimento_PROCESSO_list").length !== 0 *)
  DAT_PROCESSO : option string;
  NOM_INTERESSADO : option string;
  NOM_REQUERENTE : option string;
  fk_COD_ASSUNTO_DES_ASSUNTO : option string;
  compl_assunto : option string;
  fk_COD_SITUACAO_DES_SITUACAO : option string;
  OBS_PROCESSO : string;   (* text of the textarea, empty when absent *)
  rows : list (list string) (* the td texts of each "tbody tr" of the table *)
}.

Inductive Settled (A : Type) : Type :=
| Fulfilled (a : A)
| RejectedWith (err : JsError).
Arguments Fulfilled {A} a.
Arguments RejectedWith {A} err.

(** The environment's answers to the two requests of one fetch.  A rejection
    stands for any exception raised while the request is awaited, the abort
    of the shared signal included. *)
Record Network := {
  sessionResp : Settled (option (list string));  (* headers["set-cookie"] *)
  searchResp : string -> string -> Settled Document  (* NUM_PROCESSO, Cookie *)
}.

(** What [fetchProcessData] resolves to. *)
Inductive FetchData :=
| Null
| Records (resultados : list ProcessRecord)
| ConnectionErrorMarker (numeroProcesso : string).

(** The console lines of [fetchProcessData]. *)
Inductive LogLine :=
| LogCorrigido (numero : string)
| LogBuscando (numero : string) (firstOnly : bool)
| WarnNenhumaTabela (numero : string)
| WarnCancelada (numero : string)
| ErrorFalhaConexao (numero : string) (msg : string)
| ErrorProcesso (numero : string) (msg : string).

(** ** The record fetcher *)

(** Lines 27-30: an identifier without a slash is cut at offsets 3 and 9. *)
Definition canonicalize (numeroProcesso : string) : string :=
  if Js.includes numeroProcesso "/" then numeroProcesso
  else Js.substring 0 3 numeroProcesso +:+ "/" +:+
       Js.substring 3 9 numeroProcesso +:+ "/" +:+
       Js.substring_from 9 numeroProcesso.

(** [cols[k] || ""] *)
Definition col (cols : list string) (k : nat) : string := nth k cols "".

Definition formatarMovimento (infoBase : ProcessRecord) (cols : list string)
  : ProcessRecord :=
  infoBase ++
  [ ("Data Envio", col cols 1);
    ("Secretaria Origem", col cols 2);
    ("Setor Origem", col cols 3);
    ("Data Recebimento", col cols 4);
    ("Secretaria Destino", col cols 5);
    ("Setor Destino", col cols 6) ].

(** [$("input[name=...]").val() || ""] *)
Definition val_or_empty (v : option string) : string := default "" v.

Definition infoBase (numeroProcesso : string) (doc : Document) : ProcessRecord :=
  [ ("Número do Processo", numeroProcesso);
    ("Data Abertura", val_or_empty (DAT_PROCESSO doc));
    ("Interessado", val_or_empty (NOM_INTERESSADO doc));
    ("Requerente", val_or_empty (NOM_REQUERENTE doc));
    ("Assunto", val_or_empty (fk_COD_ASSUNTO_DES_ASSUNTO doc));
    ("Complemento do Assunto", val_or_empty (compl_assunto doc));
    ("Situação", val_or_empty (fk_COD_SITUACAO_DES_SITUACAO doc));
    ("Observação", Js.trim (OBS_PROCESSO doc)) ].

(** The td texts of one row, trimmed. *)
Definition cols_of (tr : list string) : list string := Js.trim <$> tr.

(** Lines 56-95: the parsing step, after both requests have fulfilled. *)
Definition parse (numeroProcesso : string) (firstOnly : bool) (doc : Document)
  : list LogLine * FetchData :=
  if negb (has_table doc) then ([WarnNenhumaTabela numeroProcesso], Null)
  else
    let info := infoBase numeroProcesso doc in
    if (length (rows doc) =? 0)%nat then ([], Records [info])
    else if firstOnly then
      let primeiroTr := default [] (last (rows doc)) in
      ([], Records [formatarMovimento info (cols_of primeiroTr)])
    else
      ([], Records ((fun tr => formatarMovimento info (cols_of tr)) <$> rows doc)).

Definition code_is (err : JsError) (c : string) : bool :=
  bool_decide (code err = Some c).

Definition name_is (err : JsError) (n : string) : bool :=
  bool_decide (name err = n).

(** Line 98 *)
Definition isCancelled (err : JsError) : bool :=
  isCancel err || name_is err "CanceledError" || name_is err "AbortError".

(** Lines 104-108 *)
Definition isTimeout (err : JsError) : bool :=
  let msg := Js.toLowerCase (message err) in
  code_is err "ECONNABORTED" || Js.includes msg "timeout" || Js.includes msg "timed out".

(** Lines 110-114 *)
Definition isConnection (err : JsError) : bool :=
  let msg := Js.toLowerCase (message err) in
  code_is err "ECONNREFUSED" || code_is err "ETIMEDOUT" || code_is err "ENOTFOUND"
  || Js.includes msg "connect econnrefused".

(** Lines 96-123: the [catch] block. *)
Definition on_error (numeroProcesso : string) (err : JsError)
  : list LogLine * FetchData :=
  if isCancelled err then ([WarnCancelada numeroProcesso], Null)
  else if isTimeout err || isConnection err then
    ([ErrorFalhaConexao numeroProcesso (message err)],
     ConnectionErrorMarker numeroProcesso)
  else ([ErrorProcesso numeroProcesso (message err)], Null).

(** Line 42 *)
Definition cookieHeader (rawCookies : option (list string)) : string :=
  match rawCookies with
  | Some cs => Js.join "; " (Js.before ";" <$> cs)
  | None => ""
  end.

Definition prepend (lines : list LogLine) (r : list LogLine * FetchData)
  : list LogLine * FetchData :=
  (lines ++ r.1, r.2).

(** Lines 25-124.  The result pairs the console output with the value the
    promise fulfils with; the function never rejects. *)
Definition fetchProcessData (numeroProcesso : string) (firstOnly : bool)
    (net : Network) : list LogLine * FetchData :=
  let numero := canonicalize numeroProcesso in
  let fixed :=
    if Js.includes numeroProcesso "/" then [] else [LogCorrigido numero] in
  prepend (fixed ++ [LogBuscando numero firstOnly])
    match sessionResp net with
    | RejectedWith err => on_error numero err
    | Fulfilled rawCookies =>
        match searchResp net numero (cookieHeader rawCookies) with
        | RejectedWith err => on_error numero err
        | Fulfilled doc => parse numero firstOnly doc
        end
    end.

(** The value alone. *)
Definition fetched (numeroProcesso : string) (firstOnly : bool) (net : Network)
  : FetchData :=
  (fetchProcessData numeroProcesso firstOnly net).2.

(** ** The batch controller *)

(** The arguments of [fetchBatchProcesses].  The callback and the controller
    are optional in the source ([null] by default); the model records whether
    they were supplied. *)
Record Args := {
  prefix : string;
  start : Z;
  end_ : Z;
  year : string;
  onProgress : bool;
  firstOnly : bool;
  controller : bool
}.

Definition CONCURRENCY : nat := 20.
Definition MAX_CONSECUTIVE_CONN_ERRORS : Z := 3.
Definition PREFEITURA_OFFLINE : string := "PREFEITURA_OFFLINE".

(** Line 164 *)
Definition total (a : Args) : Z := end_ a - start a + 1.

(** Line 169 *)
Definition numero (a : Args) (i : Z) : string :=
  Js.padStart 3 "0" (prefix a) +:+ "/" +:+
  Js.padStart 6 "0" (Js.toString i) +:+ "/" +:+ year a.

(** Where the body of [fetchBatchProcesses] is suspended, or how it ended. *)
Inductive Main :=
| NotCalled
| AwaitRace (i : Z)        (* line 214, inside the iteration for [i] *)
| AwaitAllSettled          (* line 226 *)
| Returned (results : list ProcessRecord)
| Thrown (msg : string).

(** The variables of one invocation, followed by three observations: the
    calls made to [onProgress], the identifiers handed to [fetchProcessData],
    and whether some task has thrown [PREFEITURA_OFFLINE]. *)
Record State := {
  main : Main;
  active : gset Z;                (* the promises in [active], by loop index *)
  aborted : bool;                 (* controller.signal.aborted *)
  consecutiveConnErrors : Z;
  doneCount : Z;
  results : list ProcessRecord;
  progress : list (Z * Z * bool);
  launched : list Z;
  offline : bool
}.

Definition init : State :=
  {| main := NotCalled; active := ∅; aborted := false;
     consecutiveConnErrors := 0; doneCount := 0; results := [];
     progress := []; launched := []; offline := false |}.

Definition set_main (m : Main) (s : State) : State :=
  {| main := m; active := active s; aborted := aborted s;
     consecutiveConnErrors := consecutiveConnErrors s;
     doneCount := doneCount s; results := results s;
     progress := progress s; launched := launched s; offline := offline s |}.

Definition set_active (x : gset Z) (s : State) : State :=
  {| main := main s; active := x; aborted := aborted s;
     consecutiveConnErrors := consecutiveConnErrors s;
     doneCount := doneCount s; results := results s;
     progress := progress s; launched := launched s; offline := offline s |}.

(** [signal?.aborted], with [signal = controller?.signal || null] *)
Definition signal_aborted (a : Args) (s : State) : bool :=
  controller a && aborted s.

(** [controller?.abort()] *)
Definition abort (a : Args) (s : State) : State :=
  if controller a then
    {| main := main s; active := active s; aborted := true;
       consecutiveConnErrors := consecutiveConnErrors s;
       doneCount := doneCount s; results := results s;
       progress := progress s; launched := launched s; offline := offline s |}
  else s.

(** [doneCount++; if (onProgress) onProgress(doneCount, total, flag)] *)
Definition report (a : Args) (flag : bool) (s : State) : State :=
  let done := doneCount s + 1 in
  {| main := main s; active := active s; aborted := aborted s;
     consecutiveConnErrors := consecutiveConnErrors s;
     doneCount := done; results := results s;
     progress := if onProgress a then progress s ++ [(done, total a, flag)]
                 else progress s;
     launched := launched s; offline := offline s |}.

Definition set_consecutive (c : Z) (s : State) : State :=
  {| main := main s; active := active s; aborted := aborted s;
     consecutiveConnErrors := c;
     doneCount := doneCount s; results := results s;
     progress := progress s; launched := launched s; offline := offline s |}.

(** [if (data && data.length > 0) results.push(...data)] *)
Definition push (data : FetchData) (s : State) : State :=
  match data with
  | Records l =>
      if (0 <? length l)%nat then
        {| main := main s; active := active s; aborted := aborted s;
           consecutiveConnErrors := consecutiveConnErrors s;
           doneCount := doneCount s; results := results s ++ l;
           progress := progress s; launched := launched s; offline := offline s |}
      else s
  | _ => s
  end.

Definition set_offline (s : State) : State :=
  {| main := main s; active := active s; aborted := aborted s;
     consecutiveConnErrors := consecutiveConnErrors s;
     doneCount := doneCount s; results := results s;
     progress := progress s; launched := launched s; offline := true |}.

(** How the promise [p] of one task settles. *)
Inductive TaskResult := Resolved | RejectedOffline.

(** Lines 174-199: the body of a task once [fetchProcessData] has answered. *)
Definition task (a : Args) (data : FetchData) (s : State) : State * TaskResult :=
  if signal_aborted a s then (s, Resolved)
  else
    match data with
    | ConnectionErrorMarker _ =>
        let s1 := set_consecutive (consecutiveConnErrors s + 1) s in
        let s2 := report a true s1 in
        if MAX_CONSECUTIVE_CONN_ERRORS <=? consecutiveConnErrors s2 then
          (set_offline (abort a s2), RejectedOffline)
        else (s2, Resolved)
    | _ =>
        let s1 := set_consecutive 0 s in
        let s2 := push data s1 in
        (report a false s2, Resolved)
    end.

(** Lines 166-204: [launch(i)].  The fetch is started; its answer arrives in
    a later turn. *)
Definition launch (a : Args) (i : Z) (s : State) : State :=
  if signal_aborted a s then s
  else
    {| main := main s; active := {[i]} ∪ active s; aborted := aborted s;
       consecutiveConnErrors := consecutiveConnErrors s;
       doneCount := doneCount s; results := results s;
       progress := progress s; launched := launched s ++ [i];
       offline := offline s |}.

(** Lines 224-231: wait for what is left, then return [results]. *)
Definition drain (s : State) : State :=
  if bool_decide (active s = ∅) then set_main (Returned (results s)) s
  else set_main AwaitAllSettled s.

(** Lines 211-221: the test of the [while] loop in iteration [i]; [k] is the
    rest of the [for] loop. *)
Definition while_loop (a : Args) (k : State -> State) (i : Z) (s : State) : State :=
  if (CONCURRENCY <=? size (active s))%nat then
    if signal_aborted a s then k s
    else set_main (AwaitRace i) s
  else k s.

(** Lines 206-222: the [for] loop entered with loop variable [i], with [n]
    iterations left before [i] exceeds [end]. *)
Fixpoint for_loop (a : Args) (n : nat) (i : Z) (s : State) : State :=
  match n with
  | O => drain s
  | S n' =>
      if signal_aborted a s then drain s
      else while_loop a (for_loop a n' (i + 1)) i (launch a i s)
  end.

Definition for_from (a : Args) (i : Z) (s : State) : State :=
  for_loop a (Z.to_nat (end_ a + 1 - i)) i s.

(** Lines 145-232: the call of [fetchBatchProcesses], run until it first
    waits on in-flight work or returns. *)
Definition fetchBatchProcesses (a : Args) (s : State) : State :=
  for_from a (start a) s.

(** One turn of the event loop. *)
Inductive Event :=
| Start                              (* the call of [fetchBatchProcesses] *)
| Settle (i : Z) (net : Network)     (* the fetch of iteration [i] answers *)
| Abort.                             (* the owner calls [controller.abort()] *)

Definition step (a : Args) (s : State) (e : Event) : option State :=
  match e with
  | Start =>
      match main s with
      | NotCalled => Some (fetchBatchProcesses a s)
      | _ => None
      end
  | Abort => if controller a then Some (abort a s) else None
  | Settle j net =>
      if bool_decide (j ∈ active s) then
        let (s1, r) := task a (fetched (numero a j) (firstOnly a) net) s in
        let s2 := set_active (active s1 ∖ {[j]}) s1 in
        Some
          match main s2 with
          | AwaitRace i =>
              match r with
              | RejectedOffline => set_main (Thrown PREFEITURA_OFFLINE) s2
              | Resolved => while_loop a (for_from a (i + 1)) i s2
              end
          | AwaitAllSettled => drain s2
          | _ => s2
          end
      else None
  end.

(** A run from state [s]: the turns in order. *)
Fixpoint exec_from (a : Args) (s : State) (evs : list Event) : option State :=
  match evs with
  | [] => Some s
  | e :: evs' =>
      match step a s e with
      | Some s' => exec_from a s' evs'
      | None => None
      end
  end.

Definition exec (a : Args) (evs : list Event) : option State :=
  exec_from a init evs.

(** The values the settled fetches of a run resolved to, in completion order. *)
Fixpoint outcomes (a : Args) (evs : list Event) : list FetchData :=
  match evs with
  | [] => []
  | Settle j net :: evs' => fetched (numero a j) (firstOnly a) net :: outcomes a evs'
  | _ :: evs' => outcomes a evs'
  end.

Definition is_connection_error (d : FetchData) : bool :=
  match d with ConnectionErrorMarker _ => true | _ => false end.

Definition records_of (d : FetchData) : list ProcessRecord :=
  match d with Records l => l | _ => [] end.

(** ** Properties the theorems are stated with *)

Definition no_slash (s : string) : Prop := Js.includes s "/" = false.

(** [s] is [p/q/y] with a three-character [p] and a six-character [q], the
    slashes being the only two of [s]. *)
Definition canonical_form (p q y s : string) : Prop :=
  s = p +:+ "/" +:+ q +:+ "/" +:+ y ∧
  String.length p = 3%nat ∧ String.length q = 6%nat ∧
  no_slash p ∧ no_slash q ∧ no_slash y.

(** The fetch of [numero] fails with [err] at one of its two requests. *)
Definition rejects_with (net : Network) (numero : string) (err : JsError) : Prop :=
  sessionResp net = RejectedWith err ∨
  ∃ rawCookies, sessionResp net = Fulfilled rawCookies ∧
    searchResp net numero (cookieHeader rawCookies) = RejectedWith err.

(** An error raised by a timeout: it is not a cancellation object, and it
    carries the code axios gives to the expiry of its own [timeout] option
    (ECONNABORTED, whichever phase the request is in), the code of a socket
    that timed out while connecting (ETIMEDOUT), or a timeout message. *)
Definition timeout_failure (err : JsError) : Prop :=
  isCancel err = false ∧ name err ≠ "CanceledError" ∧ name err ≠ "AbortError" ∧
  (code err = Some "ECONNABORTED" ∨ code err = Some "ETIMEDOUT" ∨
   Js.includes (Js.toLowerCase (message err)) "timeout" = true).

(** An error raised by the abort of the signal: axios marks it as a
    cancellation and names it CanceledError; the platform names it
    AbortError. *)
Definition cancellation_failure (err : JsError) : Prop :=
  isCancel err = true ∨ name err = "CanceledError" ∨ name err = "AbortError".

Definition header_keys : list string :=
  [ "Número do Processo"; "Data Abertura"; "Interessado"; "Requerente";
    "Assunto"; "Complemento do Assunto"; "Situação"; "Observação" ].

(** The fetch of [numero] gets both answers and the document has no results
    table. *)
Definition finds_no_table (net : Network) (numero : string) : Prop :=
  ∃ rawCookies doc, sessionResp net = Fulfilled rawCookies ∧
    searchResp net numero (cookieHeader rawCookies) = Fulfilled doc ∧
    has_table doc = false.

(** An error that is neither a cancellation nor a connection failure. *)
Definition unexpected_failure (err : JsError) : Prop :=
  isCancelled err = false ∧ isTimeout err = false ∧ isConnection err = false.

(** The property that the caller can tell a cancelled fetch, by the value it
    resolves to, from a fetch that found no table and from a fetch that
    failed unexpectedly. *)
Definition cancelled_is_distinguishable : Prop :=
  ∀ (numeroProcesso : string) (fo : bool) (net_c net_o : Network) (err err' : JsError),
    rejects_with net_c (canonicalize numeroProcesso) err →
    cancellation_failure err →
    finds_no_table net_o (canonicalize numeroProcesso) ∨
    (rejects_with net_o (canonicalize numeroProcesso) err' ∧ unexpected_failure err') →
    fetched numeroProcesso fo net_c ≠ fetched numeroProcesso fo net_o.

(** ** Sample inputs *)

Module Sample.

Definition timeout_err : JsError :=
  {| isCancel := false; name := "AxiosError"; code := Some "ECONNABORTED";
     message := "timeout of 15000ms exceeded" |}.

Definition canceled_err : JsError :=
  {| isCancel := true; name := "CanceledError"; code := Some "ERR_CANCELED";
     message := "canceled" |}.

Definition parse_err : JsError :=
  {| isCancel := false; name := "TypeError"; code := None;
     message := "Cannot read properties of undefined" |}.

Definition net_down : Network :=
  {| sessionResp := RejectedWith timeout_err;
     searchResp := fun _ _ => RejectedWith timeout_err |}.

Definition net_slow_query : Network :=
  {| sessionResp := Fulfilled (Some ["PHPSESSID=abc; path=/"]);
     searchResp := fun _ _ => RejectedWith timeout_err |}.

Definition net_cancelled : Network :=
  {| sessionResp := RejectedWith canceled_err;
     searchResp := fun _ _ => RejectedWith canceled_err |}.

Definition net_broken : Network :=
  {| sessionResp := Fulfilled None;
     searchResp := fun _ _ => RejectedWith parse_err |}.

Definition doc_of (has : bool) (trs : list (list string)) : Document :=
  {| has_table := has; DAT_PROCESSO := Some "10/02/2025";
     NOM_INTERESSADO := Some "MARIA"; NOM_REQUERENTE := None;
     fk_COD_ASSUNTO_DES_ASSUNTO := Some "ALVARA"; compl_assunto := None;
     fk_COD_SITUACAO_DES_SITUACAO := Some "EM ANDAMENTO";
     OBS_PROCESSO := " sem pendencias "; rows := trs |}.

Definition net_with (doc : Document) : Network :=
  {| sessionResp := Fulfilled (Some ["PHPSESSID=abc; path=/"]);
     searchResp := fun _ _ => Fulfilled doc |}.

Definition two_rows : list (list string) :=
  [ ["1"; " 11/02/2025 "; "SMF"; "PROTOCOLO"; "12/02/2025"; "SMU"; "ANALISE"];
    ["2"; "13/02/2025"; "SMU"; "ANALISE"; ""; "SMO"; "OBRAS"] ].

Definition net_ok : Network := net_with (doc_of true two_rows).
Definition net_no_table : Network := net_with (doc_of false []).
Definition net_no_rows : Network := net_with (doc_of true []).

Definition args (first last : Z) (ctl : bool) : Args :=
  {| prefix := "18"; start := first; end_ := last; year := "2025";
     onProgress := true; firstOnly := true; controller := ctl |}.

(** Runs used in the examples below. *)
Definition final (a : Args) (evs : list Event) : State :=
  default init (exec a evs).

Definition three_errors : list Event :=
  [Start; Settle 1 net_down; Settle 2 net_down; Settle 3 net_down].

Definition error_after_success : list Event :=
  [Start; Settle 1 net_down; Settle 2 net_down; Settle 3 net_ok;
   Settle 4 net_down].

Definition mixed : list Event :=
  [Start; Settle 2 net_ok; Settle 1 net_down; Settle 3 net_no_table].

End Sample.

(** ** Invariants of the batch controller *)

(** The variables the loop itself never writes. *)
Definition same_data (s s' : State) : Prop :=
  aborted s' = aborted s ∧
  consecutiveConnErrors s' = consecutiveConnErrors s ∧
  doneCount s' = doneCount s ∧ results s' = results s ∧
  progress s' = progress s ∧ offline s' = offline s.

(** The number of identifiers admitted so far. *)
Definition admitted (s : State) : Z := Z.of_nat (length (launched s)).

(** What holds after every turn of a run. *)
Definition Inv (a : Args) (s : State) : Prop :=
  launched s = seqZ (start a) (admitted s) ∧
  (∀ j, j ∈ active s → j ∈ launched s) ∧
  (size (active s) ≤ CONCURRENCY)%nat ∧
  (offline s = true → controller a = true → aborted s = true) ∧
  (signal_aborted a s = false → offline s = false →
     Z.of_nat (size (active s)) + doneCount s = admitted s ∧
     (onProgress a = true → Z.of_nat (length (progress s)) = doneCount s)) ∧
  match main s with
  | NotCalled =>
      active s = ∅ ∧ launched s = [] ∧ offline s = false ∧ doneCount s = 0 ∧
      results s = [] ∧ progress s = []
  | AwaitRace i =>
      i = start a + admitted s - 1 ∧ i ≤ end_ a ∧
      size (active s) = CONCURRENCY ∧ offline s = false
  | AwaitAllSettled =>
      active s ≠ ∅ ∧
      (signal_aborted a s = false → admitted s = 0 `max` (end_ a + 1 - start a))
  | Returned rs =>
      rs = results s ∧ active s = ∅ ∧
      (signal_aborted a s = false → admitted s = 0 `max` (end_ a + 1 - start a))
  | Thrown msg => msg = PREFEITURA_OFFLINE ∧ offline s = true
  end.

(** The calls of the progress callback a run without outage and without
    cancellation is to make: one per settled fetch, in completion order,
    numbered from one, flagged when the fetch resolved to the marker. *)
Definition expected_progress (a : Args) (evs : list Event) : list (Z * Z * bool) :=
  imap (λ k d, (Z.of_nat k + 1, total a, is_connection_error d)) (outcomes a evs).

(** Once the circuit has opened or cancellation has been requested, nothing
    more is admitted and nothing more reaches the accumulated records, nor
    the returned sequence. *)
Definition stops_and_discards (a : Args) : Prop :=
  ∀ (evs evs' : list Event) (s s' : State),
    exec a evs = Some s →
    offline s = true ∨ signal_aborted a s = true →
    exec_from a s evs' = Some s' →
    launched s' = launched s ∧ results s' = results s ∧
    (∀ rs, main s' = Returned rs → rs = results s).
(** ** The exporter and the routes that call the service *)

(** [exportToExcel] of [src/services/processService.js] and, of
    [src/index.js], the handler of [GET /api/process] and the two filters
    the batch routes apply to what [fetchBatchProcesses] returns. *)

(** Node's [path.basename] on POSIX paths: trailing slashes are dropped and
    what follows the last remaining slash is kept. *)
Module Path.

Fixpoint dropSlashes (s : string) : string :=
  match s with
  | EmptyString => EmptyString
  | String c s' => if Ascii.eqb c "/" then dropSlashes s' else s
  end.

Definition basename (p : string) : string :=
  String.rev (Js.before "/" (dropSlashes (String.rev p))).

End Path.

(** [proc[h]]: the value under key [h], [None] for [undefined].  The keys of
    a record are distinct and none is an array index, so that the pairs are
    the properties in the order [Object.keys] lists them. *)
Fixpoint field (proc : ProcessRecord) (h : string) : option string :=
  match proc with
  | [] => None
  | (k, v) :: rest => if String.eqb k h then Some v else field rest h
  end.

(** Lines 252-256: one cell of a data row. *)
Definition cell (proc : ProcessRecord) (h : string) : string :=
  match field proc h with
  | Some val => Js.trim val
  | None => ""
  end.

(** Lines 241-259: the rows added to the sheet, in order.  Fonts, fills and
    column widths are not cell contents and are left out. *)
Definition sheet_rows (processes : list ProcessRecord) : list (list string) :=
  match processes with
  | [] => [["Nenhum resultado encontrado"]]
  | first :: _ =>
      let headers := first.*1 in
      headers :: ((fun proc => cell proc <$> headers) <$> processes)
  end.

Definition is_path_separator (c : ascii) : bool :=
  Ascii.eqb c "/" || Ascii.eqb c "092".

(** Line 271: [nomeArquivo.replace(/[\\/]/g, "_")] *)
Fixpoint safeName (nomeArquivo : string) : string :=
  match nomeArquivo with
  | EmptyString => EmptyString
  | String c s' =>
      String (if is_path_separator c then "_"%char else c) (safeName s')
  end.

(** Line 272: [path.join(dir, `${safeName}.xlsx`)], for the normalised
    directory [dir]; the joined name holds no separator and is neither "."
    nor "..", so the join only puts a slash between the two. *)
Definition filePath (dir nomeArquivo : string) : string :=
  dir +:+ "/" +:+ safeName nomeArquivo +:+ ".xlsx".

(** Lines 237-275: the path returned and the rows written. *)
Definition exportToExcel (dir : string) (processes : list ProcessRecord)
    (nomeArquivo : string) : string * list (list string) :=
  (filePath dir nomeArquivo, sheet_rows processes).

(** index.js: [`/exports/${path.basename(filePath)}`] *)
Definition relativePath (fp : string) : string :=
  "/exports/" +:+ Path.basename fp.

(** The reply of [GET /api/process]. *)
Inductive Reply :=
| BadRequest                                            (* 400 *)
| Unavailable                                           (* 503 *)
| NotFound                                              (* 404 *)
| Exported (file : string) (rows : list (list string))  (* 200, success *)
| ServerError.                                          (* 500 *)

(** index.js, the handler of [GET /api/process].  [numero] and [firstOnly]
    are the query parameters, absent or strings; [disk_ok] tells whether
    writing the workbook succeeds. *)
Definition api_process (dir : string) (numero firstOnly : option string)
    (net : Network) (disk_ok : bool) : Reply :=
  match numero with
  | None => BadRequest
  | Some n =>
      if bool_decide (n = "") then BadRequest
      else
        match fetched n (bool_decide (firstOnly = Some "true")) net with
        | ConnectionErrorMarker _ => Unavailable
        | Null => NotFound
        | Records processData =>
            if disk_ok then
              Exported (relativePath (exportToExcel dir processData n).1)
                       (exportToExcel dir processData n).2
            else ServerError
        end
  end.

(** index.js: [setores ? setores.split(",").map(s => s.trim().toLowerCase()) : []] *)
Definition setoresFiltro (setores : option string) : list string :=
  match setores with
  | None => []
  | Some s =>
      if bool_decide (s = "") then []
      else (fun x => Js.toLowerCase (Js.trim x)) <$> Js.split "," s
  end.

(** [setoresFiltro.includes(p["Setor Origem"]?.toLowerCase())] *)
Definition setor_matches (filtro : list string) (p : ProcessRecord) : bool :=
  match field p "Setor Origem" with
  | Some v => bool_decide (Js.toLowerCase v ∈ filtro)
  | None => false
  end.

(** index.js: the sector filter of both batch routes. *)
Definition filter_setores (filtro : list string) (processos : list ProcessRecord)
  : list ProcessRecord :=
  if (length filtro =? 0)%nat then processos
  else List.filter (setor_matches filtro) processos.

(** [p[k]?.toLowerCase().includes(nome.toLowerCase())] *)
Definition field_includes (p : ProcessRecord) (k nome : string) : bool :=
  match field p k with
  | Some v => Js.includes (Js.toLowerCase v) (Js.toLowerCase nome)
  | None => false
  end.

Definition nome_matches (nome : string) (p : ProcessRecord) : bool :=
  field_includes p "Interessado" nome || field_includes p "Requerente" nome.

(** index.js: the name filter of [GET /api/process/searchByName]. *)
Definition filter_nome (nome : option string) (processos : list ProcessRecord)
  : list ProcessRecord :=
  match nome with
  | None => processos
  | Some n =>
      if bool_decide (n = "") then processos
      else List.filter (nome_matches n) processos
  end.

(** The records whose value under [k], when they have one, is text of
    U+0000 to U+00FF, on which the model's [toLowerCase] is JavaScript's. *)
Definition latin1_field (k : string) (p : ProcessRecord) : bool :=
  match field p k with
  | Some v => Js.latin1 v
  | None => true
  end.

Definition movement_keys : list string :=
  [ "Data Envio"; "Secretaria Origem"; "Setor Origem"; "Data Recebimento";
    "Secretaria Destino"; "Setor Destino" ].

(** The number of settled fetches of a run that resolved to the
    connection-error marker. *)
Definition connection_errors (a : Args) (evs : list Event) : nat :=
  length (List.filter is_connection_error (outcomes a evs)).

(** What the counters and the logs of a run satisfy after every turn,
    aborted or not. *)
Definition Tally (a : Args) (s : State) : Prop :=
  0 ≤ doneCount s ∧
  doneCount s + Z.of_nat (size (active s)) ≤ admitted s ∧
  admitted s ≤ 0 `max` total a ∧
  Z.of_nat (length (progress s)) ≤ doneCount s ∧
  (onProgress a = true → Z.of_nat (length (progress s)) = doneCount s) ∧
  (∀ k c t f, progress s !! k = Some (c, t, f) →
     c = Z.of_nat k + 1 ∧ t = total a) ∧
  (firstOnly a = true → Z.of_nat (length (results s)) ≤ doneCount s).

(** * Facts about the string built-ins *)

Module JsFacts.


Lemma includes_char_cons (c x : ascii) (s : string) :
  Js.includes (String x s) (String c "") =
  bool_decide (c = x) || Js.includes s (String c "").
Proof.
  simpl. destruct (ascii_dec c x) as [->|Hne].
  - rewrite bool_decide_eq_true_2 by done. by destruct s.
  - by rewrite bool_decide_eq_false_2 by done.
Qed.

Lemma includes_char_nil (c : ascii) : Js.includes "" (String c "") = false.
Proof. done. Qed.

Lemma includes_char_app (c : ascii) (s1 s2 : string) :
  Js.includes (s1 +:+ s2) (String c "") =
  Js.includes s1 (String c "") || Js.includes s2 (String c "").
Proof.
  induction s1 as [|x s1 IH].
  - done.
  - change (String x s1 +:+ s2) with (String x (s1 +:+ s2)).
    rewrite !includes_char_cons, IH. by rewrite orb_assoc.
Qed.

Lemma take_substring_from (n : nat) (s : string) :
  Js.take n s +:+ Js.substring_from n s = s.
Proof.
  revert s. induction n as [|n IH]; intros [|c s]; try done.
  change (String c (Js.take n s +:+ Js.substring_from n s) = String c s).
  by rewrite IH.
Qed.

Lemma length_take (n : nat) (s : string) :
  (n ≤ String.length s)%nat → String.length (Js.take n s) = n.
Proof.
  revert s. induction n as [|n IH]; intros [|c s] Hn; simpl in *; try done; try lia.
  rewrite IH; [done | lia].
Qed.

Lemma length_substring_from (n : nat) (s : string) :
  String.length (Js.substring_from n s) = (String.length s - n)%nat.
Proof. revert s. induction n as [|n IH]; intros [|c s]; simpl; auto. Qed.

Lemma substring_from_add (n m : nat) (s : string) :
  Js.substring_from n (Js.substring_from m s) = Js.substring_from (m + n) s.
Proof.
  revert s. induction m as [|m IH]; intros s; [done|].
  destruct s as [|c s]; simpl; [by destruct n | apply IH].
Qed.

Lemma length_string_app (s1 s2 : string) :
  String.length (s1 +:+ s2) = (String.length s1 + String.length s2)%nat.
Proof.
  induction s1 as [|c s1 IH]; [done|].
  change (String c s1 +:+ s2) with (String c (s1 +:+ s2)).
  cbn [String.length]. by rewrite IH.
Qed.

Lemma length_repeat_char (n : nat) (c : ascii) :
  String.length (Js.repeat_char n c) = n.
Proof. induction n; simpl; auto. Qed.

Lemma length_padStart (n : nat) (c : ascii) (s : string) :
  String.length (Js.padStart n c s) = (n `max` String.length s)%nat.
Proof. unfold Js.padStart. rewrite length_string_app, length_repeat_char. lia. Qed.

Lemma includes_repeat_char (n : nat) (c x : ascii) :
  c ≠ x → Js.includes (Js.repeat_char n x) (String c "") = false.
Proof.
  intros Hne. induction n as [|n IH]; [done|].
  change (Js.repeat_char (S n) x) with (String x (Js.repeat_char n x)).
  rewrite includes_char_cons, IH. by rewrite bool_decide_eq_false_2.
Qed.

Lemma no_slash_app (s1 s2 : string) :
  no_slash (s1 +:+ s2) ↔ no_slash s1 ∧ no_slash s2.
Proof. unfold no_slash. rewrite includes_char_app. apply orb_false_iff. Qed.

Lemma no_slash_padStart (n : nat) (s : string) :
  no_slash s → no_slash (Js.padStart n "0" s).
Proof.
  intros Hs. apply no_slash_app. split; [|done].
  by apply includes_repeat_char.
Qed.

(** Decimal digits: [pretty_N_go x s] writes the digits of [x] in front of
    [s]. *)
Lemma length_pretty_N_go (k : nat) (x : N) (s : string) :
  (x < 10 ^ N.of_nat k)%N →
  (String.length (pretty_N_go x s) ≤ k + String.length s)%nat.
Proof.
  revert x s. induction k as [|k IH]; intros x s Hx.
  - assert (x = 0%N) as -> by (simpl in Hx; lia).
    rewrite pretty_N_go_0. lia.
  - destruct (decide (x = 0%N)) as [->|Hne].
    + rewrite pretty_N_go_0. lia.
    + rewrite pretty_N_go_step by lia.
      etrans; [apply IH|simpl; lia].
      apply N.Div0.div_lt_upper_bound.
      rewrite Nat2N.inj_succ, N.pow_succ_r' in Hx. lia.
Qed.

Lemma no_slash_pretty_N_char (x : N) : pretty_N_char x ≠ "/"%char.
Proof. unfold pretty_N_char. by repeat case_match. Qed.

Lemma no_slash_pretty_N_go (x : N) (s : string) :
  no_slash s → no_slash (pretty_N_go x s).
Proof.
  revert s. induction (N.lt_wf_0 x) as [x _ IH]; intros s Hs.
  destruct (decide (x = 0%N)) as [->|Hne].
  - by rewrite pretty_N_go_0.
  - rewrite pretty_N_go_step by lia. apply IH.
    + apply N.div_lt; lia.
    + unfold no_slash. rewrite includes_char_cons, Hs.
      rewrite bool_decide_eq_false_2; [done|].
      intros Heq. by apply (no_slash_pretty_N_char (x `mod` 10)).
Qed.

Lemma length_toString (i : Z) :
  0 ≤ i < 1000000 → (String.length (Js.toString i) ≤ 6)%nat.
Proof.
  intros Hi. unfold Js.toString, pretty, pretty_Z.
  destruct i as [|p|p]; [simpl; lia| |lia].
  change (String.length (pretty_N (N.pos p)) ≤ 6)%nat.
  unfold pretty_N. rewrite decide_False by done.
  etrans; [apply (length_pretty_N_go 6)|simpl; lia].
  change (10 ^ N.of_nat 6)%N with 1000000%N. lia.
Qed.

Lemma no_slash_toString (i : Z) : 0 ≤ i → no_slash (Js.toString i).
Proof.
  intros Hi. unfold Js.toString, pretty, pretty_Z.
  destruct i as [|p|p]; [done| |lia].
  change (no_slash (pretty_N (N.pos p))).
  unfold pretty_N. rewrite decide_False by done.
  by apply no_slash_pretty_N_go.
Qed.

End JsFacts.

(** * The record fetcher *)

Section Fetcher.

Import JsFacts.

Lemma take_app_exact (p r : string) :
  Js.take (String.length p) (p +:+ r) = p.
Proof.
  induction p as [|c p IH]; [by destruct r|].
  change (String c p +:+ r) with (String c (p +:+ r)).
  cbn [String.length Js.take]. by rewrite IH.
Qed.

Lemma substring_from_app_exact (p r : string) :
  Js.substring_from (String.length p) (p +:+ r) = r.
Proof.
  induction p as [|c p IH]; [by destruct r|].
  change (String c p +:+ r) with (String c (p +:+ r)).
  by cbn [String.length Js.substring_from].
Qed.

Lemma take_app_len (n : nat) (p r : string) :
  String.length p = n → Js.take n (p +:+ r) = p.
Proof. intros <-. apply take_app_exact. Qed.

Lemma substring_from_app_len (n : nat) (p r : string) :
  String.length p = n → Js.substring_from n (p +:+ r) = r.
Proof. intros <-. apply substring_from_app_exact. Qed.

Lemma app_assoc_string (s1 s2 s3 : string) :
  (s1 +:+ s2) +:+ s3 = s1 +:+ s2 +:+ s3.
Proof.
  induction s1 as [|c s1 IH]; [done|].
  change (String c ((s1 +:+ s2) +:+ s3) = String c (s1 +:+ s2 +:+ s3)).
  by rewrite IH.
Qed.

(** Cutting at offsets 3 and 9 loses nothing. *)
Lemma slices_cover (s : string) :
  Js.substring 0 3 s +:+ Js.substring 3 9 s +:+ Js.substring_from 9 s = s.
Proof.
  unfold Js.substring.
  change (9 - 3)%nat with 6%nat. change (3 - 0)%nat with 3%nat.
  change (Js.substring_from 0 s) with s.
  rewrite <- (take_substring_from 3 s) at 4.
  f_equal.
  rewrite <- (take_substring_from 6 (Js.substring_from 3 s)) at 2.
  by rewrite substring_from_add.
Qed.

Lemma canonicalize_no_slash (s : string) :
  no_slash s → (9 ≤ String.length s)%nat →
  canonical_form (Js.substring 0 3 s) (Js.substring 3 9 s)
    (Js.substring_from 9 s) (canonicalize s).
Proof.
  intros Hs Hlen. pose proof (slices_cover s) as Hcov.
  rewrite <- Hcov in Hs.
  apply no_slash_app in Hs as [Hp Hs]. apply no_slash_app in Hs as [Hq Hy].
  unfold canonical_form. split_and!; try done.
  - unfold canonicalize. rewrite <- Hcov at 1.
    assert (Js.includes
      (Js.substring 0 3 s +:+ Js.substring 3 9 s +:+ Js.substring_from 9 s) "/"
      = false) as ->; [|done].
    apply no_slash_app. split; [done|]. by apply no_slash_app.
  - unfold Js.substring. apply length_take. simpl. lia.
  - unfold Js.substring. apply length_take.
    rewrite length_substring_from. lia.
Qed.

Lemma canonicalize_segments (p q y : string) :
  String.length p = 3%nat → String.length q = 6%nat →
  no_slash p → no_slash q → no_slash y →
  canonicalize (p +:+ q +:+ y) = p +:+ "/" +:+ q +:+ "/" +:+ y.
Proof.
  intros Hp Hq Hnp Hnq Hny.
  assert (no_slash (p +:+ q +:+ y)) as Hn.
  { apply no_slash_app. split; [done|]. by apply no_slash_app. }
  unfold canonicalize. rewrite Hn. unfold Js.substring.
  change (3 - 0)%nat with 3%nat. change (9 - 3)%nat with 6%nat.
  change (Js.substring_from 0 (p +:+ q +:+ y)) with (p +:+ q +:+ y).
  rewrite (take_app_len 3 p) by done.
  rewrite (substring_from_app_len 3 p) by done.
  rewrite (take_app_len 6 q) by done.
  rewrite <- (app_assoc_string p q y).
  rewrite (substring_from_app_len 9 (p +:+ q)); [done|].
  rewrite length_string_app. lia.
Qed.

Lemma numero_canonical (a : Args) (i : Z) :
  (String.length (prefix a) ≤ 3)%nat → no_slash (prefix a) →
  no_slash (year a) → 0 ≤ i < 1000000 →
  canonical_form (Js.padStart 3 "0" (prefix a))
    (Js.padStart 6 "0" (Js.toString i)) (year a) (numero a i).
Proof.
  intros Hlen Hp Hy Hi. unfold canonical_form. split_and!; try done.
  - rewrite length_padStart. lia.
  - rewrite length_padStart. pose proof (length_toString i Hi). lia.
  - by apply no_slash_padStart.
  - apply no_slash_padStart. apply no_slash_toString. lia.
Qed.

(** C6.  An identifier supplied without separators is its three-character
    prefix followed by its six-character sequence number and its year; the
    fixed-offset cut gives back exactly these three segments, separated by
    slashes: "0180001232025" becomes "018/000123/2025".  The identifier the
    batch controller builds from a prefix of at most three characters, a
    sequence number below one million and a year has the same form, with
    zeros filling the prefix and the sequence number, and it is what the cut
    makes of its spelling without separators. *)
Theorem canonical_identifier (p q y : string) (a : Args) (i : Z) :
  String.length p = 3%nat → String.length q = 6%nat →
  no_slash p → no_slash q → no_slash y →
  (String.length (prefix a) ≤ 3)%nat → no_slash (prefix a) →
  no_slash (year a) → 0 ≤ i < 1000000 →
  canonicalize (p +:+ q +:+ y) = p +:+ "/" +:+ q +:+ "/" +:+ y ∧
  canonical_form p q y (canonicalize (p +:+ q +:+ y)) ∧
  canonicalize "0180001232025" = "018/000123/2025" ∧
  canonical_form (Js.padStart 3 "0" (prefix a))
    (Js.padStart 6 "0" (Js.toString i)) (year a) (numero a i) ∧
  canonicalize (Js.padStart 3 "0" (prefix a) +:+
                Js.padStart 6 "0" (Js.toString i) +:+ year a) = numero a i.
Proof.
  intros Hp3 Hq6 Hnp Hnq Hny Hpl Hp Hy Hi.
  pose proof (numero_canonical a i Hpl Hp Hy Hi) as Hnum.
  pose proof (canonicalize_segments p q y Hp3 Hq6 Hnp Hnq Hny) as Hcut.
  split_and!.
  - exact Hcut.
  - rewrite Hcut. by unfold canonical_form.
  - reflexivity.
  - exact Hnum.
  - destruct Hnum as (_ & H3 & H6 & Hn3 & Hn6 & _).
    by rewrite canonicalize_segments.
Qed.

Lemma canonical_identifier_witness :
  canonicalize ("018" +:+ "000123" +:+ "2025") = "018/000123/2025" ∧
  numero (Sample.args 1 5 true) 123 = "018/000123/2025" ∧
  canonical_form "018" "000123" "2025" (numero (Sample.args 1 5 true) 123).
Proof.
  destruct (canonical_identifier "018" "000123" "2025" (Sample.args 1 5 true) 123)
    as (Hcut & _ & _ & Hform & _).
  - reflexivity.
  - reflexivity.
  - reflexivity.
  - reflexivity.
  - reflexivity.
  - simpl. lia.
  - reflexivity.
  - reflexivity.
  - lia.
  - split; [exact Hcut|]. split; [reflexivity|]. exact Hform.
Defined.

Lemma fetched_fulfilled (numeroProcesso : string) (fo : bool) (net : Network)
    (rawCookies : option (list string)) (doc : Document) :
  sessionResp net = Fulfilled rawCookies →
  searchResp net (canonicalize numeroProcesso) (cookieHeader rawCookies)
    = Fulfilled doc →
  fetched numeroProcesso fo net = (parse (canonicalize numeroProcesso) fo doc).2.
Proof. intros Hs Hq. unfold fetched, fetchProcessData. by rewrite Hs, Hq. Qed.

Lemma fetched_rejected (numeroProcesso : string) (fo : bool) (net : Network)
    (err : JsError) :
  rejects_with net (canonicalize numeroProcesso) err →
  fetchProcessData numeroProcesso fo net =
  prepend ((if Js.includes numeroProcesso "/" then []
            else [LogCorrigido (canonicalize numeroProcesso)]) ++
           [LogBuscando (canonicalize numeroProcesso) fo])
          (on_error (canonicalize numeroProcesso) err).
Proof.
  intros [Hs | (c & Hs & Hq)]; unfold fetchProcessData.
  - by rewrite Hs.
  - by rewrite Hs, Hq.
Qed.

Lemma parse_records_nonempty (numeroProcesso : string) (fo : bool)
    (doc : Document) (l : list ProcessRecord) :
  (parse numeroProcesso fo doc).2 = Records l → l ≠ [].
Proof.
  unfold parse. destruct (has_table doc); simpl; [|done].
  destruct (rows doc) as [|tr trs] eqn:Hrows; simpl.
  - by intros [= <-].
  - destruct fo; simpl; by intros [= <-].
Qed.

Lemma parse_not_marker (numeroProcesso : string) (fo : bool) (doc : Document)
    (n : string) :
  (parse numeroProcesso fo doc).2 ≠ ConnectionErrorMarker n.
Proof.
  unfold parse. destruct (has_table doc); simpl; [|done].
  destruct (length (rows doc) =? 0)%nat; [done|]. by destruct fo.
Qed.

Lemma on_error_shape (numeroProcesso : string) (err : JsError) :
  (on_error numeroProcesso err).2 = Null ∨
  (on_error numeroProcesso err).2 = ConnectionErrorMarker numeroProcesso.
Proof.
  unfold on_error. destruct (isCancelled err); [by left|].
  destruct (isTimeout err || isConnection err); [by right | by left].
Qed.

Lemma isCancelled_iff (err : JsError) :
  isCancelled err = true ↔ cancellation_failure err.
Proof.
  unfold isCancelled, cancellation_failure, name_is.
  rewrite !orb_true_iff, !bool_decide_eq_true. tauto.
Qed.

Lemma timeout_not_cancelled (err : JsError) :
  timeout_failure err → isCancelled err = false.
Proof.
  intros (Hc & Hn1 & Hn2 & _). apply not_true_is_false.
  intros [H | [H | H]]%isCancelled_iff; congruence.
Qed.

Lemma timeout_takes_connection_branch (err : JsError) :
  timeout_failure err → isTimeout err || isConnection err = true.
Proof.
  intros (_ & _ & _ & [Hc | [Hc | Hm]]); apply orb_true_iff.
  - left. unfold isTimeout, code_is.
    by rewrite (bool_decide_eq_true_2 (code err = Some "ECONNABORTED")).
  - right. unfold isConnection, code_is.
    rewrite (bool_decide_eq_true_2 (code err = Some "ETIMEDOUT")) by done.
    by rewrite orb_true_r.
  - left. unfold isTimeout. rewrite Hm. by rewrite orb_true_r.
Qed.

Lemma col_cols_of (tr : list string) (k : nat) :
  col (cols_of tr) k = default "" (Js.trim <$> tr !! k).
Proof.
  unfold col, cols_of. revert k.
  induction tr as [|c tr IH]; intros [|k]; try done. apply IH.
Qed.

(** C7.  When both requests are answered: with firstOnly the fetch yields
    at most one record, and with a table that has rows that record is the
    movement of the last row; without firstOnly it yields the movements of
    the rows, one per row and in table order; with a table that has no rows
    it yields exactly one record, whose keys are the header attributes.
    The movement of a row has the eight header attributes with the values
    of the header record, then the six movement attributes, whose values
    are the texts of the second to the seventh cell of that row, trimmed,
    the empty string standing for a cell the row does not have; the header
    record holds the identifier, the values of the six inputs, the empty
    string standing for an absent one, and the trimmed observation. *)
Theorem rows_to_records (numeroProcesso : string) (fo : bool) (net : Network)
    (rawCookies : option (list string)) (doc : Document) :
  sessionResp net = Fulfilled rawCookies →
  searchResp net (canonicalize numeroProcesso) (cookieHeader rawCookies)
    = Fulfilled doc →
  let info := infoBase (canonicalize numeroProcesso) doc in
  let out := records_of (fetched numeroProcesso fo net) in
  (fo = true → (length out ≤ 1)%nat) ∧
  (fo = true → has_table doc = true →
     ∀ tr, last (rows doc) = Some tr → out = [formatarMovimento info (cols_of tr)]) ∧
  (fo = false → has_table doc = true → rows doc ≠ [] →
     out = (λ tr, formatarMovimento info (cols_of tr)) <$> rows doc ∧
     length out = length (rows doc)) ∧
  (has_table doc = true → rows doc = [] →
     out = [info] ∧ info.*1 = header_keys) ∧
  (∀ tr,
     (formatarMovimento info (cols_of tr)).*1 = header_keys ++ movement_keys ∧
     (∀ k, k ∈ header_keys →
        field (formatarMovimento info (cols_of tr)) k = field info k) ∧
     (∀ i k, movement_keys !! i = Some k →
        field (formatarMovimento info (cols_of tr)) k
        = Some (default "" (Js.trim <$> tr !! S i)))) ∧
  info.*2 =
    [ canonicalize numeroProcesso;
      default "" (DAT_PROCESSO doc);
      default "" (NOM_INTERESSADO doc);
      default "" (NOM_REQUERENTE doc);
      default "" (fk_COD_ASSUNTO_DES_ASSUNTO doc);
      default "" (compl_assunto doc);
      default "" (fk_COD_SITUACAO_DES_SITUACAO doc);
      Js.trim (OBS_PROCESSO doc) ].
Proof.
  intros Hs Hq info out. subst out.
  rewrite (fetched_fulfilled _ _ _ _ _ Hs Hq). unfold parse.
  split_and!; [| | | | |done].
  - intros ->. destruct (has_table doc); simpl; [|lia].
    destruct (length (rows doc) =? 0)%nat; simpl; lia.
  - intros -> -> tr Hlast. simpl.
    destruct (rows doc) as [|tr0 trs] eqn:Hrows; [done|].
    simpl length. simpl Nat.eqb. cbv iota. by rewrite Hlast.
  - intros -> -> Hne. simpl.
    destruct (rows doc) as [|tr0 trs] eqn:Hrows; [done|].
    simpl. by rewrite length_fmap.
  - intros -> ->. simpl. done.
  - intros tr. split_and!.
    + done.
    + intros k Hk. unfold header_keys in Hk.
      repeat (apply elem_of_cons in Hk as [-> | Hk]; [done|]).
      by apply elem_of_nil in Hk.
    + intros i k Hk. rewrite <- col_cols_of.
      destruct i as [|[|[|[|[|[|i]]]]]]; simpl in Hk; by simplify_eq.
Qed.

Lemma rows_to_records_witness :
  records_of (fetched "0180001232025" true Sample.net_ok) =
    [ [ ("Número do Processo", "018/000123/2025");
        ("Data Abertura", "10/02/2025"); ("Interessado", "MARIA");
        ("Requerente", ""); ("Assunto", "ALVARA");
        ("Complemento do Assunto", ""); ("Situação", "EM ANDAMENTO");
        ("Observação", "sem pendencias");
        ("Data Envio", "13/02/2025"); ("Secretaria Origem", "SMU");
        ("Setor Origem", "ANALISE"); ("Data Recebimento", "");
        ("Secretaria Destino", "SMO"); ("Setor Destino", "OBRAS") ] ] ∧
  (λ r, field r "Data Envio")
    <$> records_of (fetched "0180001232025" false Sample.net_ok)
    = [Some "11/02/2025"; Some "13/02/2025"] ∧
  records_of (fetched "0180001232025" false Sample.net_no_rows) =
    [ [ ("Número do Processo", "018/000123/2025");
        ("Data Abertura", "10/02/2025"); ("Interessado", "MARIA");
        ("Requerente", ""); ("Assunto", "ALVARA");
        ("Complemento do Assunto", ""); ("Situação", "EM ANDAMENTO");
        ("Observação", "sem pendencias") ] ].
Proof.
  pose proof (rows_to_records "0180001232025" true Sample.net_ok
                (Some ["PHPSESSID=abc; path=/"])
                (Sample.doc_of true Sample.two_rows) eq_refl eq_refl)
    as (_ & H2 & _ & _).
  pose proof (rows_to_records "0180001232025" false Sample.net_ok
                (Some ["PHPSESSID=abc; path=/"])
                (Sample.doc_of true Sample.two_rows) eq_refl eq_refl)
    as (_ & _ & H3 & _).
  pose proof (rows_to_records "0180001232025" false Sample.net_no_rows
                (Some ["PHPSESSID=abc; path=/"])
                (Sample.doc_of true []) eq_refl eq_refl)
    as (_ & _ & _ & H4 & _).
  split_and!.
  - rewrite (H2 eq_refl eq_refl _ eq_refl). reflexivity.
  - destruct (H3 eq_refl eq_refl) as [-> _]; [discriminate | reflexivity].
  - rewrite (proj1 (H4 eq_refl eq_refl)). reflexivity.
Defined.

(** C9.  A fetch that fails at either request with a timeout error resolves
    to the connection-error marker and takes the connection-failure branch
    (its last console line is the connection error, not the cancellation
    warning and not the generic error); a fetch that fails at either
    request with a cancellation resolves to null through the cancellation
    branch, not to the marker. *)
Theorem timeout_is_connection_error (numeroProcesso : string) (fo : bool)
    (net : Network) (err : JsError) :
  rejects_with net (canonicalize numeroProcesso) err →
  (timeout_failure err →
     fetched numeroProcesso fo net =
       ConnectionErrorMarker (canonicalize numeroProcesso) ∧
     last (fetchProcessData numeroProcesso fo net).1 =
       Some (ErrorFalhaConexao (canonicalize numeroProcesso) (message err))) ∧
  (cancellation_failure err →
     fetched numeroProcesso fo net = Null ∧
     last (fetchProcessData numeroProcesso fo net).1 =
       Some (WarnCancelada (canonicalize numeroProcesso))).
Proof.
  intros Hrej. unfold fetched. rewrite (fetched_rejected _ _ _ _ Hrej).
  unfold prepend, on_error. split.
  - intros Ht. rewrite (timeout_not_cancelled _ Ht), (timeout_takes_connection_branch _ Ht).
    simpl. split; [done|]. by rewrite last_snoc.
  - intros Hc%isCancelled_iff. rewrite Hc. simpl. split; [done|].
    by rewrite last_snoc.
Qed.

Lemma timeout_is_connection_error_witness :
  fetched "0180001232025" false Sample.net_down =
    ConnectionErrorMarker "018/000123/2025" ∧
  fetched "0180001232025" false Sample.net_slow_query =
    ConnectionErrorMarker "018/000123/2025" ∧
  fetched "0180001232025" false Sample.net_cancelled = Null.
Proof.
  split_and!.
  - apply (timeout_is_connection_error "0180001232025" false Sample.net_down
             Sample.timeout_err).
    + left. reflexivity.
    + unfold timeout_failure. simpl. split_and!; try done. by left.
  - apply (timeout_is_connection_error "0180001232025" false
             Sample.net_slow_query Sample.timeout_err).
    + right. eexists. split; reflexivity.
    + unfold timeout_failure. simpl. split_and!; try done. by left.
  - apply (timeout_is_connection_error "0180001232025" false
             Sample.net_cancelled Sample.canceled_err).
    + left. reflexivity.
    + left. reflexivity.
Defined.

(** C4, as the code has it.  A fetch resolves to exactly one of three
    shapes: null, a non-empty array of records, or the connection-error
    marker carrying the canonical identifier.  A cancellation at either
    request resolves to null, the value also given for a missing table and
    for an unexpected error. *)
Theorem fetch_outcome_shapes (numeroProcesso : string) (fo : bool)
    (net : Network) :
  (fetched numeroProcesso fo net = Null ∨
   (∃ l, fetched numeroProcesso fo net = Records l ∧ l ≠ []) ∨
   fetched numeroProcesso fo net =
     ConnectionErrorMarker (canonicalize numeroProcesso)) ∧
  (∀ err, rejects_with net (canonicalize numeroProcesso) err →
     cancellation_failure err ∨ unexpected_failure err →
     fetched numeroProcesso fo net = Null) ∧
  (finds_no_table net (canonicalize numeroProcesso) →
     fetched numeroProcesso fo net = Null).
Proof.
  split_and!.
  - unfold fetched, fetchProcessData, prepend. simpl.
    destruct (sessionResp net) as [c|err].
    + destruct (searchResp net _ _) as [doc|err].
      * destruct (parse _ fo doc).2 as [|l|n] eqn:Hp.
        -- by left.
        -- right; left. exists l. split; [done|].
           by eapply parse_records_nonempty.
        -- by destruct (parse_not_marker _ _ _ _ Hp).
      * destruct (on_error_shape (canonicalize numeroProcesso) err); auto.
    + destruct (on_error_shape (canonicalize numeroProcesso) err); auto.
  - intros err Hrej Hkind. unfold fetched.
    rewrite (fetched_rejected _ _ _ _ Hrej). unfold prepend, on_error. simpl.
    destruct Hkind as [Hc%isCancelled_iff | (Hc & Ht & Hx)].
    + by rewrite Hc.
    + by rewrite Hc, Ht, Hx.
  - intros (c & doc & Hs & Hq & Ht).
    rewrite (fetched_fulfilled _ _ _ _ _ Hs Hq). unfold parse. by rewrite Ht.
Qed.

Lemma fetch_outcome_shapes_witness :
  fetched "0180001232025" false Sample.net_cancelled = Null ∧
  fetched "0180001232025" false Sample.net_no_table = Null.
Proof.
  split.
  - apply (fetch_outcome_shapes "0180001232025" false Sample.net_cancelled)
      with (err := Sample.canceled_err).
    + left. reflexivity.
    + left. left. reflexivity.
  - apply (fetch_outcome_shapes "0180001232025" false Sample.net_no_table).
    exists (Some ["PHPSESSID=abc; path=/"]), (Sample.doc_of false []).
    split_and!; reflexivity.
Defined.

(** C4, counterexample: the cancelled fetch and the fetch that finds no
    table resolve to the same value. *)
Lemma cancelled_not_distinguishable :
  fetched "0180001232025" false Sample.net_cancelled = Null ∧
  fetched "0180001232025" false Sample.net_no_table = Null ∧
  fetched "0180001232025" false Sample.net_broken = Null ∧
  ¬ cancelled_is_distinguishable.
Proof.
  split_and!; try reflexivity.
  intros H.
  apply (H "0180001232025" false Sample.net_cancelled Sample.net_no_table
           Sample.canceled_err Sample.canceled_err).
  - left. reflexivity.
  - left. reflexivity.
  - left. exists (Some ["PHPSESSID=abc; path=/"]), (Sample.doc_of false []).
    split_and!; reflexivity.
  - reflexivity.
Qed.

End Fetcher.

(** * The batch controller *)

Section Controller.

Variable a : Args.

Lemma same_data_refl (s : State) : same_data s s.
Proof. by unfold same_data. Qed.

Lemma same_data_trans (s1 s2 s3 : State) :
  same_data s1 s2 → same_data s2 s3 → same_data s1 s3.
Proof. unfold same_data. intros (?&?&?&?&?&?) (?&?&?&?&?&?). split_and!; congruence. Qed.

Lemma signal_aborted_same (s s' : State) :
  same_data s s' → signal_aborted a s' = signal_aborted a s.
Proof. intros (H & _). unfold signal_aborted. by rewrite H. Qed.

Lemma drain_cases (s : State) :
  (active s = ∅ ∧ drain s = set_main (Returned (results s)) s) ∨
  (active s ≠ ∅ ∧ drain s = set_main AwaitAllSettled s).
Proof.
  unfold drain. destruct (bool_decide (active s = ∅)) eqn:H.
  - left. by apply bool_decide_eq_true in H.
  - right. by apply bool_decide_eq_false in H.
Qed.

Lemma drain_spec (s : State) :
  launched (drain s) = launched s ∧ active (drain s) = active s ∧
  same_data s (drain s) ∧
  match main (drain s) with
  | Returned rs => rs = results s ∧ active s = ∅
  | AwaitAllSettled => active s ≠ ∅
  | _ => False
  end.
Proof. destruct (drain_cases s) as [[He ->] | [He ->]]; by unfold same_data. Qed.

Lemma for_loop_aborted (n : nat) (i : Z) (s : State) :
  signal_aborted a s = true → for_loop a n i s = drain s.
Proof. intros H. destruct n; [done|]. simpl. by rewrite H. Qed.

(** The [for] statement, unfolded once. *)
Lemma for_from_unfold (i : Z) (s : State) :
  for_from a i s =
  if bool_decide (i ≤ end_ a) then
    if signal_aborted a s then drain s
    else while_loop a (for_from a (i + 1)) i (launch a i s)
  else drain s.
Proof.
  unfold for_from. case_bool_decide as Hi.
  - replace (Z.to_nat (end_ a + 1 - i)) with (S (Z.to_nat (end_ a + 1 - (i + 1))))
      by lia.
    done.
  - by replace (Z.to_nat (end_ a + 1 - i)) with O by lia.
Qed.

(** What the [for] loop does before it next suspends or returns: it admits
    [k] consecutive identifiers from [i] on. *)
Lemma for_loop_spec (n : nat) (i : Z) (s : State) :
  ∃ k : nat,
    (k ≤ n)%nat ∧
    launched (for_loop a n i s) = launched s ++ seqZ i (Z.of_nat k) ∧
    active (for_loop a n i s) = list_to_set (seqZ i (Z.of_nat k)) ∪ active s ∧
    same_data s (for_loop a n i s) ∧
    (signal_aborted a s = true → k = O) ∧
    ((size (active s) < CONCURRENCY)%nat →
     (size (active (for_loop a n i s)) ≤ CONCURRENCY)%nat) ∧
    match main (for_loop a n i s) with
    | AwaitRace i' =>
        signal_aborted a s = false ∧ i' = i + Z.of_nat k - 1 ∧ (1 ≤ k)%nat ∧
        (CONCURRENCY ≤ size (active (for_loop a n i s)))%nat
    | AwaitAllSettled =>
        active (for_loop a n i s) ≠ ∅ ∧ (signal_aborted a s = false → k = n)
    | Returned rs =>
        rs = results (for_loop a n i s) ∧ active (for_loop a n i s) = ∅ ∧
        (signal_aborted a s = false → k = n)
    | _ => False
    end.
Proof.
  revert i s. induction n as [|n IH]; intros i s.
  - exists O. simpl for_loop. rewrite app_nil_r.
    destruct (drain_spec s) as (Hl & Hact & Hsame & Hmain).
    rewrite Hl, Hact. split_and!; try done.
    + set_solver.
    + lia.
    + destruct (main (drain s)); try done.
      destruct Hmain as [-> ?]. split_and!; try done.
      by destruct Hsame as (_ & _ & _ & -> & _).
  - simpl for_loop. destruct (signal_aborted a s) eqn:Hab.
    + exists O. rewrite app_nil_r.
      destruct (drain_spec s) as (Hl & Hact & Hsame & Hmain).
      rewrite Hl, Hact. split_and!; try done.
      * lia.
      * set_solver.
      * lia.
      * destruct (main (drain s)); try done.
        destruct Hmain as [-> ?]. split_and!; try done.
        by destruct Hsame as (_ & _ & _ & -> & _).
    + unfold launch. rewrite Hab.
      set (s1 := {| main := main s; active := {[i]} ∪ active s;
                    aborted := aborted s;
                    consecutiveConnErrors := consecutiveConnErrors s;
                    doneCount := doneCount s; results := results s;
                    progress := progress s; launched := launched s ++ [i];
                    offline := offline s |}).
      assert (signal_aborted a s1 = false) as Hab1 by done.
      unfold while_loop. rewrite Hab1.
      destruct (CONCURRENCY <=? size (active s1))%nat eqn:Hfull.
      * apply Nat.leb_le in Hfull.
        exists 1%nat. simpl.
        split_and!; try done; try lia.
        -- set_solver.
        -- intros Hlt. subst s1. simpl in *.
           pose proof (size_union_alt (C:=gset Z) {[i]} (active s)) as Hsz.
           rewrite size_singleton in Hsz.
           assert (active s ∖ {[i]} ⊆ active s) as Hsub by set_solver.
           apply (subseteq_size (C:=gset Z)) in Hsub. lia.
      * apply Nat.leb_gt in Hfull.
        destruct (IH (i + 1) s1) as (k & Hk & Hl & Hact & Hsame & Hk0 & Hsz & Hmain).
        exists (S k).
        assert (seqZ i (Z.of_nat (S k)) = i :: seqZ (i + 1) (Z.of_nat k)) as Hseq.
        { rewrite seqZ_cons by lia. f_equal. f_equal; lia. }
        rewrite Hseq. split_and!.
        -- lia.
        -- rewrite Hl. subst s1. simpl. by rewrite <- app_assoc.
        -- rewrite Hact. subst s1. simpl. set_solver.
        -- done.
        -- done.
        -- intros _. by apply Hsz.
        -- destruct (main (for_loop a n (i + 1) s1)); try done.
           ++ destruct Hmain as (_ & -> & ? & ?). split_and!; [done | lia | lia | done].
           ++ destruct Hmain as (? & Hn). split; [done|]. intros _. by rewrite Hn.
           ++ destruct Hmain as (? & ? & Hn). split_and!; [done..|].
              intros _. by rewrite Hn.
Qed.

(** How a task leaves the variables: it is ignored after an abort, it
    opens the circuit, or it is counted. *)
Lemma task_spec (data : FetchData) (s : State) :
  ∃ s1 r, task a data s = (s1, r) ∧
    main s1 = main s ∧ active s1 = active s ∧ launched s1 = launched s ∧
    ((signal_aborted a s = true ∧ s1 = s ∧ r = Resolved) ∨
     (signal_aborted a s = false ∧ r = RejectedOffline ∧
      is_connection_error data = true ∧ offline s1 = true ∧
      (controller a = true → aborted s1 = true) ∧
      results s1 = results s ∧
      consecutiveConnErrors s1 = consecutiveConnErrors s + 1 ∧
      MAX_CONSECUTIVE_CONN_ERRORS ≤ consecutiveConnErrors s1) ∨
     (signal_aborted a s = false ∧ r = Resolved ∧
      aborted s1 = aborted s ∧ offline s1 = offline s ∧
      doneCount s1 = doneCount s + 1 ∧
      progress s1 =
        (if onProgress a
         then progress s ++ [(doneCount s + 1, total a, is_connection_error data)]
         else progress s) ∧
      results s1 = results s ++ records_of data ∧
      consecutiveConnErrors s1 =
        (if is_connection_error data then consecutiveConnErrors s + 1 else 0) ∧
      (is_connection_error data = true →
       consecutiveConnErrors s1 < MAX_CONSECUTIVE_CONN_ERRORS))).
Proof.
  unfold task. destruct (signal_aborted a s) eqn:Hab.
  { exists s, Resolved. split_and!; try done. by left. }
  destruct data as [|l|n].
  - eexists _, _. split; [done|]. split_and!; try done.
    right; right. simpl. split_and!; try done. by rewrite app_nil_r.
  - eexists _, _. split; [done|]. split_and!; try done.
    + unfold push. by destruct (0 <? length l)%nat.
    + unfold push. by destruct (0 <? length l)%nat.
    + unfold push. by destruct (0 <? length l)%nat.
    + right; right. unfold push.
      destruct (0 <? length l)%nat eqn:Hl; simpl; split_and!; try done.
      apply Nat.ltb_ge in Hl. destruct l; [|simpl in Hl; lia].
      by rewrite app_nil_r.
  - simpl.
    destruct (MAX_CONSECUTIVE_CONN_ERRORS <=? consecutiveConnErrors s + 1) eqn:Hmax.
    + apply Z.leb_le in Hmax. eexists _, _. split; [done|].
      unfold abort. destruct (controller a) eqn:Hc; simpl; split_and!; try done.
      * right; left. split_and!; done.
      * right; left. split_and!; done.
    + apply Z.leb_gt in Hmax. eexists _, _. split; [done|]. simpl.
      split_and!; try done. right; right. split_and!; try done.
      by rewrite app_nil_r.
Qed.

Lemma size_settled (X : gset Z) (j : Z) :
  j ∈ X → (size (X ∖ {[j]}) = size X - 1)%nat.
Proof.
  intros Hj. rewrite size_difference by set_solver.
  by rewrite size_singleton.
Qed.

Lemma size_admit (X : gset Z) (i : Z) (k : nat) :
  (∀ j, j ∈ X → j < i) →
  size (list_to_set (seqZ i (Z.of_nat k)) ∪ X) = (k + size X)%nat.
Proof.
  intros Hlt. rewrite size_union.
  - rewrite size_list_to_set by apply NoDup_seqZ.
    rewrite length_seqZ. lia.
  - intros x Hx%elem_of_list_to_set%elem_of_seqZ HX%Hlt. lia.
Qed.

(** Entering the [for] statement at the first identifier not yet admitted
    establishes the invariant. *)
Lemma for_from_Inv (i : Z) (s : State) :
  launched s = seqZ (start a) (admitted s) →
  (∀ j, j ∈ active s → j ∈ launched s) →
  (size (active s) < CONCURRENCY)%nat →
  i = start a + admitted s →
  i ≤ end_ a + 1 ∨ admitted s = 0 →
  offline s = false →
  (signal_aborted a s = false →
     Z.of_nat (size (active s)) + doneCount s = admitted s ∧
     (onProgress a = true → Z.of_nat (length (progress s)) = doneCount s)) →
  Inv a (for_from a i s).
Proof.
  intros Hseq Hsub Hsize Hi Hend Hoff Hcount. unfold for_from.
  destruct (for_loop_spec (Z.to_nat (end_ a + 1 - i)) i s)
    as (k & Hk & Hl & Hact & Hsame & Hk0 & Hsz & Hmain).
  set (s' := for_loop a (Z.to_nat (end_ a + 1 - i)) i s) in *.
  assert (admitted s' = admitted s + Z.of_nat k) as Hadm.
  { unfold admitted at 1. rewrite Hl, length_app, length_seqZ. unfold admitted. lia. }
  assert (∀ j, j ∈ active s → j < i) as Hlt.
  { intros j Hj%Hsub. rewrite Hseq in Hj. apply elem_of_seqZ in Hj. lia. }
  pose proof (signal_aborted_same _ _ Hsame) as Hab.
  destruct Hsame as (Hsa & Hsc & Hsd & Hsr & Hsp & Hso).
  assert (0 ≤ admitted s) as Hadm0 by (unfold admitted; lia).
  unfold Inv. split_and!.
  - rewrite Hl, Hadm, Hseq at 1. rewrite seqZ_app by lia. by rewrite <- Hi.
  - intros j. rewrite Hact, Hl, elem_of_union, elem_of_app, elem_of_list_to_set.
    intros [?|?]; [by right | left; by apply Hsub].
  - by apply Hsz.
  - rewrite Hso, Hoff. done.
  - rewrite Hab. intros Hna _. destruct (Hcount Hna) as [Hc Hp].
    rewrite Hact, size_admit by done. rewrite Hsd, Hsp, Hadm. split; [lia | done].
  - destruct (main s') as [|i'|  |rs|msg]; try done.
    + destruct Hmain as (Hna & -> & Hk1 & Hge). split_and!.
      * lia.
      * lia.
      * specialize (Hsz Hsize). lia.
      * by rewrite Hso.
    + destruct Hmain as (Hne & Hn). split; [done|].
      rewrite Hab. intros Hna. rewrite Hadm, (Hn Hna). lia.
    + destruct Hmain as (-> & He & Hn). split_and!; [done | done |].
      rewrite Hab. intros Hna. rewrite Hadm, (Hn Hna). lia.
Qed.

Lemma active_set_main (m : Main) (s : State) : active (set_main m s) = active s.
Proof. done. Qed.
Lemma aborted_set_main (m : Main) (s : State) : aborted (set_main m s) = aborted s.
Proof. done. Qed.
Lemma consecutiveConnErrors_set_main (m : Main) (s : State) : consecutiveConnErrors (set_main m s) = consecutiveConnErrors s.
Proof. done. Qed.
Lemma doneCount_set_main (m : Main) (s : State) : doneCount (set_main m s) = doneCount s.
Proof. done. Qed.
Lemma results_set_main (m : Main) (s : State) : results (set_main m s) = results s.
Proof. done. Qed.
Lemma progress_set_main (m : Main) (s : State) : progress (set_main m s) = progress s.
Proof. done. Qed.
Lemma launched_set_main (m : Main) (s : State) : launched (set_main m s) = launched s.
Proof. done. Qed.
Lemma offline_set_main (m : Main) (s : State) : offline (set_main m s) = offline s.
Proof. done. Qed.
Lemma main_set_active (x : gset Z) (s : State) : main (set_active x s) = main s.
Proof. done. Qed.
Lemma aborted_set_active (x : gset Z) (s : State) : aborted (set_active x s) = aborted s.
Proof. done. Qed.
Lemma consecutiveConnErrors_set_active (x : gset Z) (s : State) : consecutiveConnErrors (set_active x s) = consecutiveConnErrors s.
Proof. done. Qed.
Lemma doneCount_set_active (x : gset Z) (s : State) : doneCount (set_active x s) = doneCount s.
Proof. done. Qed.
Lemma results_set_active (x : gset Z) (s : State) : results (set_active x s) = results s.
Proof. done. Qed.
Lemma progress_set_active (x : gset Z) (s : State) : progress (set_active x s) = progress s.
Proof. done. Qed.
Lemma launched_set_active (x : gset Z) (s : State) : launched (set_active x s) = launched s.
Proof. done. Qed.
Lemma offline_set_active (x : gset Z) (s : State) : offline (set_active x s) = offline s.
Proof. done. Qed.
Lemma main_set_main (m : Main) (s : State) : main (set_main m s) = m.
Proof. done. Qed.
Lemma active_set_active (x : gset Z) (s : State) : active (set_active x s) = x.
Proof. done. Qed.
Lemma admitted_set_main (m : Main) (s : State) : admitted (set_main m s) = admitted s.
Proof. done. Qed.
Lemma admitted_set_active (x : gset Z) (s : State) : admitted (set_active x s) = admitted s.
Proof. done. Qed.
Lemma signal_aborted_set_main (m : Main) (s : State) :
  signal_aborted a (set_main m s) = signal_aborted a s.
Proof. done. Qed.
Lemma signal_aborted_set_active (x : gset Z) (s : State) :
  signal_aborted a (set_active x s) = signal_aborted a s.
Proof. done. Qed.

Create Rewrite HintDb state.
Hint Rewrite active_set_main aborted_set_main consecutiveConnErrors_set_main doneCount_set_main results_set_main progress_set_main launched_set_main offline_set_main main_set_active
  aborted_set_active consecutiveConnErrors_set_active doneCount_set_active results_set_active progress_set_active launched_set_active offline_set_active main_set_main active_set_active admitted_set_main admitted_set_active signal_aborted_set_main signal_aborted_set_active : state.

Lemma init_Inv : Inv a init.
Proof.
  unfold Inv, admitted. split_and!; try done.
  change (active init) with (∅ : gset Z). rewrite size_empty.
  unfold CONCURRENCY. lia.
Qed.

Lemma step_settle (s s' : State) (j : Z) (net : Network) :
  step a s (Settle j net) = Some s' →
  j ∈ active s ∧
  ∃ s1 r, task a (fetched (numero a j) (firstOnly a) net) s = (s1, r) ∧
    s' = match main s1 with
         | AwaitRace i =>
             match r with
             | RejectedOffline =>
                 set_main (Thrown PREFEITURA_OFFLINE)
                   (set_active (active s1 ∖ {[j]}) s1)
             | Resolved =>
                 while_loop a (for_from a (i + 1)) i
                   (set_active (active s1 ∖ {[j]}) s1)
             end
         | AwaitAllSettled => drain (set_active (active s1 ∖ {[j]}) s1)
         | _ => set_active (active s1 ∖ {[j]}) s1
         end.
Proof.
  unfold step. case_bool_decide as Hj; [|done].
  destruct (task a _ s) as [s1 r] eqn:Ht. intros [= <-].
  split; [done|]. by exists s1, r.
Qed.

Lemma step_Inv (s s' : State) (e : Event) :
  Inv a s → step a s e = Some s' → Inv a s'.
Proof.
  intros (Hseq & Hsub & Hsize & Hoa & Hcount & Hmain) Hstep.
  destruct e as [|j net|].
  - (* Start *)
    simpl in Hstep. destruct (main s); try done. injection Hstep as <-.
    destruct Hmain as (He & Hl & Hoff & Hd & Hr & Hp).
    assert (admitted s = 0) as Hadm by (unfold admitted; by rewrite Hl).
    apply for_from_Inv; try done.
    + rewrite He, size_empty. unfold CONCURRENCY. lia.
    + lia.
    + by right.
    + intros _. rewrite He, size_empty, Hd, Hp, Hadm. done.
  - (* Settle *)
    apply step_settle in Hstep as (Hj & s1 & r & Ht & ->).
    destruct (task_spec (fetched (numero a j) (firstOnly a) net) s)
      as (s1' & r' & Ht' & Hm1 & Ha1 & Hl1 & Hcases).
    rewrite Ht in Ht'. injection Ht' as <- <-.
    set (s2 := set_active (active s1 ∖ {[j]}) s1).
    assert (admitted s2 = admitted s) as Hadm2 by (unfold admitted; simpl; by rewrite Hl1).
    assert (size (active s2) = size (active s) - 1)%nat as Hsz2.
    { simpl. rewrite Ha1. by apply size_settled. }
    assert (0 < size (active s))%nat as Hpos.
    { destruct (decide (size (active s) = 0)%nat) as [H0|]; [|lia].
      apply size_empty_iff in H0. apply H0 in Hj. by apply not_elem_of_empty in Hj. }
    assert (launched s2 = seqZ (start a) (admitted s2)) as Hseq2.
    { rewrite Hadm2. simpl. by rewrite Hl1. }
    assert (∀ x, x ∈ active s2 → x ∈ launched s2) as Hsub2.
    { simpl. rewrite Ha1, Hl1. intros x Hx. apply Hsub. set_solver. }
    assert (offline s2 = true → controller a = true → aborted s2 = true) as Hoa2.
    { simpl. destruct Hcases as [(_ & -> & _) | [(_ & _ & _ & _ & Hc & _) | (_ & _ & -> & -> & _)]]; done. }
    assert (signal_aborted a s2 = false → offline s2 = false →
            signal_aborted a s = false ∧ r = Resolved ∧ offline s = false ∧
            Z.of_nat (size (active s2)) + doneCount s2 = admitted s2 ∧
            (onProgress a = true → Z.of_nat (length (progress s2)) = doneCount s2))
      as Hcount2.
    { intros Hna Hno.
      change (signal_aborted a s1 = false) in Hna.
      change (offline s1 = false) in Hno.
      change (doneCount s2) with (doneCount s1).
      change (progress s2) with (progress s1).
      destruct Hcases as [(Hab & -> & _) | [(_ & _ & _ & Ho & _) | (Hab & -> & Hsa & Hso & Hd & Hp & _)]].
      - congruence.
      - congruence.
      - rewrite Hso in Hno. destruct (Hcount Hab Hno) as [Hc Hpr].
        split_and!; try done.
        + rewrite Hsz2, Hd, Hadm2. lia.
        + intros Hon. rewrite Hp, Hon, length_app. simpl. rewrite Hd.
          specialize (Hpr Hon). lia. }
    rewrite Hm1. destruct (main s) as [|i| |rs|msg] eqn:Hms.
    + destruct Hmain as (He & _). rewrite He in Hj.
      by apply not_elem_of_empty in Hj.
    + destruct Hmain as (Hi & Hie & Hfull & Hoff).
      destruct r.
      * (* the race resolves and the loop goes on *)
        unfold while_loop.
        assert ((CONCURRENCY <=? size (active s2))%nat = false) as ->.
        { apply Nat.leb_gt. lia. }
        assert (offline s2 = false) as Hoff2.
        { simpl. destruct Hcases as [(_ & -> & _) | [(_ & ? & _) | (_ & _ & _ & -> & _)]]; done. }
        apply for_from_Inv; try done.
        -- lia.
        -- lia.
        -- left. lia.
        -- intros Hna. by destruct (Hcount2 Hna Hoff2) as (_ & _ & _ & ? & ?).
      * (* the race rejects *)
        unfold Inv. autorewrite with state. fold s2.
        split_and!; try done.
        -- lia.
        -- intros Hna Hno. by destruct (Hcount2 Hna Hno) as (_ & ? & _).
        -- change (offline s2) with (offline s1).
           destruct Hcases as [(_ & _ & ?) | [(_ & _ & _ & ? & _) | (_ & ? & _)]]; done.
    + destruct Hmain as (Hne & Hadm).
      destruct (drain_spec s2) as (Hld & Had & Hsame & Hmd).
      pose proof (signal_aborted_same _ _ Hsame) as Hab.
      destruct Hsame as (Hsa & Hsc & Hsd & Hsr & Hsp & Hso).
      assert (admitted (drain s2) = admitted s2) as Hadmd.
      { unfold admitted. by rewrite Hld. }
      unfold Inv. rewrite Hld, Had, Hadmd, Hsa, Hsd, Hsp, Hso, Hab.
      split_and!; try done.
      -- lia.
      -- intros Hna Hno. by destruct (Hcount2 Hna Hno) as (_ & _ & _ & ? & ?).
      -- destruct (main (drain s2)); try done.
         ++ split; [done|]. intros Hna.
            rewrite Hadm2. apply Hadm.
            destruct Hcases as [(Hx & -> & _) | [(? & _) | (? & _)]]; done.
         ++ destruct Hmd as [-> ?]. rewrite Hsr. split_and!; try done.
            intros Hna. rewrite Hadm2. apply Hadm.
            destruct Hcases as [(Hx & -> & _) | [(? & _) | (? & _)]]; done.
    + destruct Hmain as (_ & He & _). rewrite He in Hj.
      by apply not_elem_of_empty in Hj.
    + destruct Hmain as (-> & Hoff).
      unfold Inv. fold s2. change (main s2) with (main s1). rewrite Hm1.
      split_and!; try done.
      -- lia.
      -- intros Hna Hno. by destruct (Hcount2 Hna Hno) as (_ & _ & _ & ? & ?).
      -- simpl. destruct Hcases as [(_ & -> & _) | [(_ & _ & _ & ? & _) | (_ & _ & _ & -> & _)]]; done.
  - (* Abort *)
    simpl in Hstep. unfold abort in Hstep.
    destruct (controller a) eqn:Hc; [|done]. injection Hstep as <-.
    unfold Inv, signal_aborted, admitted. simpl. rewrite Hc. simpl.
    split_and!; try done.
    destruct (main s); try done.
    + split; [tauto | done].
    + split_and!; try tauto. done.
Qed.

Lemma exec_from_Inv (evs : list Event) (s s' : State) :
  Inv a s → exec_from a s evs = Some s' → Inv a s'.
Proof.
  revert s. induction evs as [|e evs IH]; intros s HI Hex; simpl in Hex.
  - by injection Hex as <-.
  - destruct (step a s e) as [s1|] eqn:Hstep; [|done].
    eapply IH; [|done]. by eapply step_Inv.
Qed.

Lemma exec_Inv (evs : list Event) (s : State) :
  exec a evs = Some s → Inv a s.
Proof. apply exec_from_Inv, init_Inv. Qed.

Lemma exec_from_app (evs evs' : list Event) (s s' : State) :
  exec_from a s (evs ++ evs') = Some s' ↔
  ∃ s1, exec_from a s evs = Some s1 ∧ exec_from a s1 evs' = Some s'.
Proof.
  revert s. induction evs as [|e evs IH]; intros s; simpl.
  - split; [by exists s | by intros (? & [= ->] & ?)].
  - destruct (step a s e); [apply IH | split; [done | by intros (? & ? & ?)]].
Qed.

Lemma for_from_same_data (i : Z) (s : State) : same_data s (for_from a i s).
Proof.
  unfold for_from.
  by destruct (for_loop_spec (Z.to_nat (end_ a + 1 - i)) i s) as (_ & _ & _ & _ & ? & _).
Qed.

Lemma while_loop_same_data (k : State → State) (i : Z) (s : State) :
  (∀ s0, same_data s0 (k s0)) → same_data s (while_loop a k i s).
Proof.
  intros Hk. unfold while_loop.
  destruct (_ <=? _)%nat; [|done]. by destruct (signal_aborted a s).
Qed.

(** The loop writes none of the counters, records or flags: after the task
    of a settled fetch has run, the rest of the turn leaves them alone. *)
Lemma step_data (s s' : State) (e : Event) :
  step a s e = Some s' →
  (e = Start ∧ main s = NotCalled ∧ same_data s s') ∨
  (e = Abort ∧ controller a = true ∧ s' = abort a s) ∨
  (∃ j net s1 r,
     e = Settle j net ∧ j ∈ active s ∧
     task a (fetched (numero a j) (firstOnly a) net) s = (s1, r) ∧
     same_data s1 s').
Proof.
  intros Hstep. destruct e as [|j net|].
  - left. simpl in Hstep. destruct (main s); try done.
    injection Hstep as <-. split_and!; try done. apply for_from_same_data.
  - right; right. apply step_settle in Hstep as (Hj & s1 & r & Ht & ->).
    exists j, net, s1, r. split_and!; try done.
    destruct (main s1) as [|i| | |]; try done.
    + destruct r; [|done].
      eapply same_data_trans; [|apply while_loop_same_data, for_from_same_data].
      done.
    + eapply same_data_trans; [|apply drain_spec]. done.
  - right; left. simpl in Hstep. destruct (controller a); [|done].
    by injection Hstep as <-.
Qed.

Lemma step_offline_mono (s s' : State) (e : Event) :
  step a s e = Some s' → offline s = true → offline s' = true.
Proof.
  intros [(_ & _ & Hsame) | [(_ & Hc & ->) | (j & net & s1 & r & _ & _ & Ht & Hsame)]]%step_data Hoff.
  - destruct Hsame as (_ & _ & _ & _ & _ & ->). done.
  - unfold abort. by rewrite Hc.
  - destruct Hsame as (_ & _ & _ & _ & _ & ->).
    destruct (task_spec (fetched (numero a j) (firstOnly a) net) s)
      as (s1' & r' & Ht' & _ & _ & _ & Hcases).
    rewrite Ht in Ht'. injection Ht' as <- <-.
    destruct Hcases as [(_ & -> & _) | [(_ & _ & _ & ? & _) | (_ & _ & _ & -> & _)]]; done.
Qed.

Lemma step_signal_mono (s s' : State) (e : Event) :
  step a s e = Some s' → signal_aborted a s = true → signal_aborted a s' = true.
Proof.
  intros [(_ & _ & Hsame) | [(_ & Hc & ->) | (j & net & s1 & r & _ & _ & Ht & Hsame)]]%step_data Hab.
  - by rewrite (signal_aborted_same _ _ Hsame).
  - unfold abort, signal_aborted. by rewrite Hc.
  - rewrite (signal_aborted_same _ _ Hsame).
    unfold task in Ht. rewrite Hab in Ht. by injection Ht as <- <-.
Qed.

Lemma exec_from_offline_mono (evs : list Event) (s s' : State) :
  exec_from a s evs = Some s' → offline s = true → offline s' = true.
Proof.
  revert s. induction evs as [|e evs IH]; intros s Hex Hoff; simpl in Hex.
  - by injection Hex as <-.
  - destruct (step a s e) as [s1|] eqn:Hstep; [|done].
    eapply IH; [done|]. by eapply step_offline_mono.
Qed.

Lemma exec_from_signal_mono (evs : list Event) (s s' : State) :
  exec_from a s evs = Some s' →
  signal_aborted a s = true → signal_aborted a s' = true.
Proof.
  revert s. induction evs as [|e evs IH]; intros s Hex Hoff; simpl in Hex.
  - by injection Hex as <-.
  - destruct (step a s e) as [s1|] eqn:Hstep; [|done].
    eapply IH; [done|]. by eapply step_signal_mono.
Qed.

(** The signal is aborted only by the owner or by the circuit breaker. *)
Lemma exec_from_aborted_cause (evs : list Event) (s s' : State) :
  exec_from a s evs = Some s' → signal_aborted a s' = true →
  signal_aborted a s = true ∨ Abort ∈ evs ∨ offline s' = true.
Proof.
  revert s. induction evs as [|e evs IH]; intros s Hex Hab; simpl in Hex.
  - injection Hex as <-. by left.
  - destruct (step a s e) as [s1|] eqn:Hstep; [|done].
    destruct (IH _ Hex Hab) as [Hab1 | [Hin | Hoff]].
    + destruct (step_data _ _ _ Hstep)
        as [(_ & _ & Hsame) | [(-> & _) | (j & net & s0 & r & _ & _ & Ht & Hsame)]].
      * left. by rewrite <- (signal_aborted_same _ _ Hsame).
      * right; left. apply elem_of_cons. by left.
      * rewrite (signal_aborted_same _ _ Hsame) in Hab1.
        destruct (task_spec (fetched (numero a j) (firstOnly a) net) s)
          as (s1' & r' & Ht' & _ & _ & _ & Hcases).
        rewrite Ht in Ht'. injection Ht' as <- <-.
        destruct Hcases as [(? & _) | [(_ & _ & _ & Ho & _) | (? & _ & Hsa & _)]].
        -- by left.
        -- right; right. eapply exec_from_offline_mono; [done|].
           by destruct Hsame as (_ & _ & _ & _ & _ & ->).
        -- left. unfold signal_aborted in *. by rewrite <- Hsa.
    + right; left. apply elem_of_cons. by right.
    + by right; right.
Qed.

Lemma task_of_step (s s1 : State) (r : TaskResult) (data : FetchData) :
  task a data s = (s1, r) →
  main s1 = main s ∧ active s1 = active s ∧ launched s1 = launched s ∧
  ((signal_aborted a s = true ∧ s1 = s ∧ r = Resolved) ∨
   (signal_aborted a s = false ∧ r = RejectedOffline ∧
    is_connection_error data = true ∧ offline s1 = true ∧
    (controller a = true → aborted s1 = true) ∧
    results s1 = results s ∧
    consecutiveConnErrors s1 = consecutiveConnErrors s + 1 ∧
    MAX_CONSECUTIVE_CONN_ERRORS ≤ consecutiveConnErrors s1) ∨
   (signal_aborted a s = false ∧ r = Resolved ∧
    aborted s1 = aborted s ∧ offline s1 = offline s ∧
    doneCount s1 = doneCount s + 1 ∧
    progress s1 =
      (if onProgress a
       then progress s ++ [(doneCount s + 1, total a, is_connection_error data)]
       else progress s) ∧
    results s1 = results s ++ records_of data ∧
    consecutiveConnErrors s1 =
      (if is_connection_error data then consecutiveConnErrors s + 1 else 0) ∧
    (is_connection_error data = true →
     consecutiveConnErrors s1 < MAX_CONSECUTIVE_CONN_ERRORS))).
Proof.
  intros Ht. destruct (task_spec data s) as (s1' & r' & Ht' & H).
  rewrite Ht in Ht'. by injection Ht' as <- <-.
Qed.

(** The callbacks of a run that ends with the signal not aborted and the
    circuit closed. *)
Lemma exec_from_progress (evs : list Event) (s s' : State) :
  exec_from a s evs = Some s' →
  signal_aborted a s' = false → offline s' = false → onProgress a = true →
  progress s' =
    progress s ++
    imap (λ k d, (doneCount s + Z.of_nat k + 1, total a, is_connection_error d))
         (outcomes a evs).
Proof.
  intros Hex Hna Hno Hon. revert s Hex.
  induction evs as [|e evs IH]; intros s Hex; simpl in Hex.
  - injection Hex as <-. simpl. by rewrite app_nil_r.
  - destruct (step a s e) as [s1|] eqn:Hstep; [|done].
    specialize (IH _ Hex).
    destruct (step_data _ _ _ Hstep)
      as [(-> & _ & Hsame) | [(-> & Hc & ->) | (j & net & s0 & r & -> & _ & Ht & Hsame)]].
    + destruct Hsame as (_ & _ & Hd & _ & Hp & _). simpl outcomes.
      by rewrite IH, Hd, Hp.
    + assert (signal_aborted a s' = true); [|congruence].
      eapply exec_from_signal_mono; [done|].
      unfold abort, signal_aborted. by rewrite Hc.
    + simpl outcomes.
      destruct (task_of_step _ _ _ _ Ht)
        as (_ & _ & _ & [(Hab & -> & _) | [(_ & _ & _ & Ho & _) | (_ & _ & _ & _ & Hd & Hp & _)]]).
      * assert (signal_aborted a s' = true); [|congruence].
        eapply exec_from_signal_mono; [done|].
        by rewrite (signal_aborted_same _ _ Hsame).
      * assert (offline s' = true); [|congruence].
        eapply exec_from_offline_mono; [done|].
        by destruct Hsame as (_ & _ & _ & _ & _ & ->).
      * destruct Hsame as (_ & _ & Hd1 & _ & Hp1 & _).
        rewrite IH, Hp1, Hp, Hon, Hd1, Hd. rewrite <- app_assoc. f_equal.
        simpl. f_equal.
        -- do 2 f_equal. lia.
        -- apply imap_ext. intros k d _. simpl. do 2 f_equal. lia.
Qed.

(** C5.  In a run that returns, in which the owner never aborts and the
    circuit never opens, the callback is called once per settled fetch, in
    completion order: the k-th call carries the count k, the total, and
    the flag set exactly when the fetch resolved to the connection-error
    marker; over a range [start, end] that makes end - start + 1 calls. *)
Theorem progress_count (evs : list Event) (s : State) (rs : list ProcessRecord) :
  onProgress a = true → start a ≤ end_ a →
  exec a evs = Some s → main s = Returned rs →
  Abort ∉ evs → offline s = false →
  progress s = expected_progress a evs ∧
  Z.of_nat (length (progress s)) = end_ a - start a + 1.
Proof.
  intros Hon Hrange Hex Hret Hnab Hno.
  assert (signal_aborted a s = false) as Hna.
  { apply not_true_is_false. intros Hab.
    destruct (exec_from_aborted_cause _ _ _ Hex Hab) as [H | [H | H]].
    - unfold signal_aborted in H. simpl in H. by rewrite andb_false_r in H.
    - done.
    - congruence. }
  split.
  - rewrite (exec_from_progress _ _ _ Hex Hna Hno Hon). simpl.
    unfold expected_progress. apply imap_ext. intros k d _. simpl.
    do 2 f_equal.
  - pose proof (exec_Inv _ _ Hex) as (_ & _ & _ & _ & Hcount & Hmain).
    rewrite Hret in Hmain. destruct Hmain as (_ & He & Hadm).
    destruct (Hcount Hna Hno) as [Hc Hp].
    rewrite (Hp Hon). rewrite He, size_empty in Hc.
    rewrite (Hadm Hna) in Hc. lia.
Qed.

(** A turn either leaves the accumulated records alone or appends the
    non-empty array the settled fetch resolved to. *)
Lemma step_results (s s' : State) (e : Event) :
  step a s e = Some s' →
  results s' = results s ∨
  ∃ j net l, e = Settle j net ∧
    fetched (numero a j) (firstOnly a) net = Records l ∧ l ≠ [] ∧
    results s' = results s ++ l.
Proof.
  intros [(_ & _ & Hsame) | [(_ & Hc & ->) | (j & net & s1 & r & -> & _ & Ht & Hsame)]]%step_data.
  - left. by destruct Hsame as (_ & _ & _ & -> & _).
  - left. unfold abort. by rewrite Hc.
  - destruct Hsame as (_ & _ & _ & -> & _).
    destruct (task_of_step _ _ _ _ Ht)
      as (_ & _ & _ & [(_ & -> & _) | [(_ & _ & _ & _ & _ & -> & _) | (_ & _ & _ & _ & _ & _ & -> & _)]]);
      [by left | by left |].
    destruct (fetched (numero a j) (firstOnly a) net) as [|l|n] eqn:Hf; simpl.
    + left. by rewrite app_nil_r.
    + destruct l as [|x l]; [left; by rewrite app_nil_r|].
      right. by exists j, net, (x :: l).
    + left. by rewrite app_nil_r.
Qed.

Lemma exec_from_results (evs : list Event) (s s' : State) (r : ProcessRecord) :
  exec_from a s evs = Some s' → r ∈ results s' →
  r ∈ results s ∨
  ∃ j net l, Settle j net ∈ evs ∧
    fetched (numero a j) (firstOnly a) net = Records l ∧ l ≠ [] ∧ r ∈ l.
Proof.
  revert s. induction evs as [|e evs IH]; intros s Hex Hr; simpl in Hex.
  - injection Hex as <-. by left.
  - destruct (step a s e) as [s1|] eqn:Hstep; [|done].
    destruct (IH _ Hex Hr) as [Hin | (j & net & l & Hev & Hf & Hl & Hrl)].
    + destruct (step_results _ _ _ Hstep) as [Heq | (j & net & l & -> & Hf & Hl & Heq)].
      * left. by rewrite <- Heq.
      * rewrite Heq in Hin. apply elem_of_app in Hin as [Hin | Hin]; [by left|].
        right. exists j, net, l. split_and!; try done.
        apply elem_of_cons. by left.
    + right. exists j, net, l. split_and!; try done.
      apply elem_of_cons. by right.
Qed.

(** C10.  Every record of the accumulated sequence belongs to the non-empty
    array that some settled fetch of the run resolved to; the returned
    sequence is the accumulated one; and a fetch that resolved to null, to
    the connection-error marker or to an empty array adds nothing to it. *)
Theorem results_are_fetched_records (evs : list Event) (s : State) :
  exec a evs = Some s →
  (∀ r, r ∈ results s →
     ∃ j net l, Settle j net ∈ evs ∧
       fetched (numero a j) (firstOnly a) net = Records l ∧ l ≠ [] ∧ r ∈ l) ∧
  (∀ rs, main s = Returned rs → rs = results s) ∧
  (∀ j net s', step a s (Settle j net) = Some s' →
     records_of (fetched (numero a j) (firstOnly a) net) = [] →
     results s' = results s).
Proof.
  intros Hex. split_and!.
  - intros r Hr. destruct (exec_from_results _ _ _ _ Hex Hr) as [Hin|]; [|done].
    simpl in Hin. by apply elem_of_nil in Hin.
  - intros rs Hret. pose proof (exec_Inv _ _ Hex) as (_ & _ & _ & _ & _ & Hmain).
    rewrite Hret in Hmain. by destruct Hmain.
  - intros j net s' Hstep Hnone.
    destruct (step_results _ _ _ Hstep) as [|(j' & net' & l & [= <- <-] & Hf & Hl & _)];
      [done|].
    rewrite Hf in Hnone. simpl in Hnone. done.
Qed.

Lemma launch_spec (i : Z) (s : State) :
  signal_aborted a s = false →
  active (launch a i s) = {[i]} ∪ active s ∧
  launched (launch a i s) = launched s ++ [i] ∧
  same_data s (launch a i s).
Proof. intros Hab. unfold launch. rewrite Hab. by unfold same_data. Qed.

(** When a fetch settles while the loop waits on a full window, and the
    run goes on, the next identifier is admitted in the same turn. *)
Lemma refill (s s' : State) (i j : Z) (net : Network) :
  Inv a s → main s = AwaitRace i → i < end_ a →
  step a s (Settle j net) = Some s' →
  signal_aborted a s' = false → offline s' = false →
  launched s' = launched s ++ [i + 1] ∧
  active s' = {[i + 1]} ∪ (active s ∖ {[j]}) ∧
  main s' = AwaitRace (i + 1).
Proof.
  intros (Hseq & Hsub & Hsize & _ & _ & Hmain) Hms Hi Hstep Hna Hno.
  rewrite Hms in Hmain. destruct Hmain as (Hieq & _ & Hfull & Hoff).
  apply step_settle in Hstep as (Hj & s1 & r & Ht & ->).
  destruct (task_of_step _ _ _ _ Ht) as (Hm1 & Ha1 & Hl1 & Hcases).
  rewrite Hm1, Hms in Hna, Hno |- *.
  set (s2 := set_active (active s1 ∖ {[j]}) s1) in *.
  assert (size (active s2) = 19%nat) as Hsz2.
  { simpl. rewrite Ha1, size_settled by done. rewrite Hfull. done. }
  assert (i + 1 ∉ active s2) as Hfresh.
  { simpl. rewrite Ha1. intros Hin.
    assert (i + 1 ∈ launched s) as Hl by (apply Hsub; set_solver).
    rewrite Hseq in Hl. apply elem_of_seqZ in Hl. lia. }
  destruct Hcases as [(Hab & -> & ->) | [(_ & -> & _ & Ho & _) | (Hab & -> & Hsa & _)]].
  - rewrite (signal_aborted_same s2 _) in Hna
      by (apply while_loop_same_data, for_from_same_data).
    change (signal_aborted a s2) with (signal_aborted a s) in Hna. congruence.
  - change (offline s1 = false) in Hno. congruence.
  - assert (signal_aborted a s2 = false) as Hab2.
    { unfold signal_aborted in *. simpl. by rewrite Hsa. }
    destruct (launch_spec (i + 1) s2 Hab2) as (Ha3 & Hl3 & Hsame3).
    pose proof (signal_aborted_same _ _ Hsame3) as Hab3.
    assert (while_loop a (for_from a (i + 1)) i s2
            = set_main (AwaitRace (i + 1)) (launch a (i + 1) s2)) as ->.
    { unfold while_loop at 1. rewrite Hsz2. simpl Nat.leb. cbv iota.
      rewrite for_from_unfold, bool_decide_eq_true_2 by lia.
      rewrite Hab2. unfold while_loop. rewrite Hab3, Hab2, Ha3.
      assert (size ({[i + 1]} ∪ active s2) = 20%nat) as Hsz.
      { rewrite size_union by set_solver. by rewrite size_singleton, Hsz2. }
      by rewrite Hsz. }
    autorewrite with state. rewrite Ha3, Hl3.
    simpl. by rewrite Ha1, Hl1.
Qed.

(** Entered with room in the window and enough identifiers left, the loop
    admits identifiers, one after the other, until the window is full, and
    then waits on the race. *)
Lemma for_loop_fills (n : nat) (i : Z) (s : State) :
  signal_aborted a s = false →
  (∀ j, j ∈ active s → j < i) →
  (size (active s) < CONCURRENCY)%nat →
  (CONCURRENCY - size (active s) ≤ n)%nat →
  main (for_loop a n i s)
    = AwaitRace (i + Z.of_nat (CONCURRENCY - size (active s)) - 1) ∧
  launched (for_loop a n i s)
    = launched s ++ seqZ i (Z.of_nat (CONCURRENCY - size (active s))) ∧
  active (for_loop a n i s)
    = list_to_set (seqZ i (Z.of_nat (CONCURRENCY - size (active s)))) ∪ active s.
Proof.
  revert i s. induction n as [|n IH]; intros i s Hab Hlt Hroom Hn; [lia|].
  destruct (launch_spec i s Hab) as (Ha1 & Hl1 & Hsame1).
  pose proof (signal_aborted_same _ _ Hsame1) as Hab1. rewrite Hab in Hab1.
  assert (size (active (launch a i s)) = S (size (active s))) as Hsz1.
  { rewrite Ha1, size_union, size_singleton; [done|].
    intros x ->%elem_of_singleton Hx%Hlt. lia. }
  cbn [for_loop]. rewrite Hab. unfold while_loop. rewrite Hab1, Hsz1.
  destruct (decide (S (size (active s)) = CONCURRENCY)) as [Hfull|Hmore].
  - rewrite Hfull, Nat.leb_refl.
    replace (CONCURRENCY - size (active s))%nat with 1%nat by lia.
    change (Z.of_nat 1) with 1. rewrite (seqZ_cons i 1) by lia.
    rewrite (seqZ_nil _ (Z.pred 1)) by lia.
    autorewrite with state. rewrite Ha1, Hl1. split_and!; [f_equal; lia | done |].
    clear. apply leibniz_equiv. set_solver.
  - assert ((CONCURRENCY <=? S (size (active s)))%nat = false) as ->
      by (apply Nat.leb_gt; lia).
    destruct (IH (i + 1) (launch a i s)) as (Hm & Hl & Ha); try done.
    + intros j. rewrite Ha1. intros [->%elem_of_singleton | Hj%Hlt]%elem_of_union; lia.
    + lia.
    + lia.
    + rewrite Hm, Hl, Ha, Hsz1, Ha1, Hl1.
      replace (Z.of_nat (CONCURRENCY - size (active s)))
        with (Z.succ (Z.of_nat (CONCURRENCY - S (size (active s))))) by lia.
      rewrite (seqZ_cons i) by lia. rewrite Z.pred_succ.
      replace (Z.succ i) with (i + 1) by lia.
      split_and!; [f_equal; lia | by rewrite <- app_assoc |].
      generalize (seqZ (i + 1) (Z.of_nat (CONCURRENCY - S (size (active s))))).
      clear. intros l. apply leibniz_equiv. set_solver.
Qed.

(** C3.  After every turn of every run at most CONCURRENCY fetches are in
    flight.  The window is kept full: over a range of at least CONCURRENCY
    identifiers the call admits the first CONCURRENCY of them at once;
    after every turn of a run that is neither cancelled nor stopped by the
    circuit, CONCURRENCY fetches are in flight unless the whole range has
    been admitted; the answer of a fetch in flight can always be taken; and
    as soon as one fetch settles while the loop waits on a full window, the
    next identifier of the range is admitted in that same turn, the others
    still being in flight. *)
Theorem window_bound (evs : list Event) (s : State) :
  exec a evs = Some s →
  (size (active s) ≤ CONCURRENCY)%nat ∧
  (∀ i j net s',
     main s = AwaitRace i → i < end_ a →
     step a s (Settle j net) = Some s' →
     signal_aborted a s' = false → offline s' = false →
     launched s' = launched s ++ [i + 1] ∧
     active s' = {[i + 1]} ∪ (active s ∖ {[j]})) ∧
  (Z.of_nat CONCURRENCY ≤ total a →
     ∃ s0, exec a [Start] = Some s0 ∧
           main s0 = AwaitRace (start a + Z.of_nat CONCURRENCY - 1) ∧
           launched s0 = seqZ (start a) (Z.of_nat CONCURRENCY) ∧
           active s0 = list_to_set (seqZ (start a) (Z.of_nat CONCURRENCY))) ∧
  (main s ≠ NotCalled → signal_aborted a s = false → offline s = false →
     size (active s) = CONCURRENCY ∨ admitted s = 0 `max` total a) ∧
  (∀ j net, j ∈ active s → is_Some (step a s (Settle j net))).
Proof.
  intros HI%exec_Inv. split_and!.
  - by destruct HI as (_ & _ & ? & _).
  - intros i j net s' Hms Hi Hstep Hna Hno.
    by destruct (refill _ _ _ _ _ HI Hms Hi Hstep Hna Hno) as (? & ? & _).
  - intros Htotal. exists (fetchBatchProcesses a init). split; [done|].
    unfold fetchBatchProcesses, for_from.
    assert (size (active init) = 0%nat) as Hsz by apply size_empty.
    destruct (for_loop_fills (Z.to_nat (end_ a + 1 - start a)) (start a) init)
      as (Hm & Hl & Ha).
    { unfold signal_aborted. apply andb_false_r. }
    { intros j Hj. by apply not_elem_of_empty in Hj. }
    { rewrite Hsz. unfold CONCURRENCY. lia. }
    { rewrite Hsz. unfold total, CONCURRENCY in *. lia. }
    rewrite Hsz, Nat.sub_0_r in Hm, Hl, Ha. rewrite Hm, Hl, Ha.
    split_and!; [done | done |]. apply leibniz_equiv. set_solver.
  - intros Hcalled Hna Hno. destruct HI as (_ & _ & _ & _ & _ & Hmain).
    destruct (main s) as [|i| |rs|msg]; try done.
    + left. by destruct Hmain as (_ & _ & ? & _).
    + right. destruct Hmain as (_ & Hall). rewrite (Hall Hna). unfold total. lia.
    + right. destruct Hmain as (_ & _ & Hall). rewrite (Hall Hna). unfold total. lia.
    + destruct Hmain as (_ & ?). congruence.
  - intros j net Hj. unfold step. rewrite bool_decide_eq_true_2 by done.
    by destruct (task a _ s).
Qed.









End Controller.

(** * Runs of the controller *)

Section Runs.

Variable a : Args.

(** A connection error on a live signal adds one to the counter, and opens
    the circuit exactly when the counter reaches the threshold. *)
Lemma connection_error_counts (s s' : State) (j : Z) (net : Network) :
  step a s (Settle j net) = Some s' → signal_aborted a s = false →
  is_connection_error (fetched (numero a j) (firstOnly a) net) = true →
  consecutiveConnErrors s' = consecutiveConnErrors s + 1 ∧
  (MAX_CONSECUTIVE_CONN_ERRORS ≤ consecutiveConnErrors s + 1 →
     offline s' = true ∧ (controller a = true → aborted s' = true)) ∧
  (consecutiveConnErrors s + 1 < MAX_CONSECUTIVE_CONN_ERRORS →
     offline s' = offline s).
Proof.
  intros Hstep Hab Hce.
  destruct (step_data _ _ _ _ Hstep)
    as [(? & _) | [(? & _) | (j' & net' & s1 & r & [= <- <-] & _ & Ht & Hsame)]];
    try done.
  destruct Hsame as (Hsa & -> & _ & _ & _ & ->).
  destruct (task_of_step _ _ _ _ _ Ht)
    as (_ & _ & _ & [(? & _) | [(_ & _ & _ & Ho & Hc & _ & Hn & Hmax) | (_ & _ & _ & Ho & _ & _ & _ & Hn & Hlt)]]).
  - congruence.
  - split; [done|]. split.
    + intros _. split; [done|]. intros Hctl. rewrite Hsa. by apply Hc.
    + intros Hlt. lia.
  - rewrite Hce in Hn. split; [done|]. specialize (Hlt Hce). split.
    + intros Hmax. lia.
    + done.
Qed.

(** Any other outcome on a live signal resets the counter. *)
Lemma other_outcome_resets (s s' : State) (j : Z) (net : Network) :
  step a s (Settle j net) = Some s' → signal_aborted a s = false →
  is_connection_error (fetched (numero a j) (firstOnly a) net) = false →
  consecutiveConnErrors s' = 0 ∧ offline s' = offline s.
Proof.
  intros Hstep Hab Hce.
  destruct (step_data _ _ _ _ Hstep)
    as [(? & _) | [(? & _) | (j' & net' & s1 & r & [= <- <-] & _ & Ht & Hsame)]];
    try done.
  destruct Hsame as (Hsa & -> & _ & _ & _ & ->).
  destruct (task_of_step _ _ _ _ _ Ht)
    as (_ & _ & _ & [(? & _) | [(_ & _ & ? & _) | (_ & _ & _ & Ho & _ & _ & _ & Hn & _)]]);
    try congruence.
  by rewrite Hce in Hn.
Qed.

(** The call throws only the outage error, and only once the circuit has
    opened. *)
Lemma thrown_only_offline (evs : list Event) (s : State) (msg : string) :
  exec a evs = Some s → main s = Thrown msg →
  msg = PREFEITURA_OFFLINE ∧ offline s = true.
Proof.
  intros (_ & _ & _ & _ & _ & Hmain)%exec_Inv Hms. by rewrite Hms in Hmain.
Qed.

(** Over a range shorter than the window the loop never waits on the race,
    so the call never throws, whatever the fetches resolve to. *)
Lemma short_range_never_throws (evs : list Event) (s : State) :
  total a < Z.of_nat CONCURRENCY → exec a evs = Some s →
  match main s with AwaitRace _ | Thrown _ => False | _ => True end.
Proof.
  intros Hshort. unfold exec.
  assert (match main init with AwaitRace _ | Thrown _ => False | _ => True end)
    as Hq by done.
  pose proof (init_Inv a) as HI.
  revert Hq HI. generalize init. intros s0 Hq HI Hex. revert s0 Hq HI Hex.
  induction evs as [|e evs IH]; intros s0 Hq HI Hex; simpl in Hex.
  - by injection Hex as <-.
  - destruct (step a s0 e) as [s1|] eqn:Hstep; [|done].
    apply (IH s1); [|by eapply step_Inv|done].
    destruct e as [|j net|].
    + simpl in Hstep. destruct (main s0) eqn:Hms; try done.
      injection Hstep as <-.
      destruct HI as (_ & _ & _ & _ & _ & Hmain). rewrite Hms in Hmain.
      destruct Hmain as (He & _). unfold fetchBatchProcesses, for_from.
      destruct (for_loop_spec a (Z.to_nat (end_ a + 1 - start a)) (start a) s0)
        as (k & Hk & _ & Hact & _ & _ & _ & Hm).
      destruct (main (for_loop a _ (start a) s0)); try done.
      destruct Hm as (_ & _ & _ & Hfull).
      rewrite Hact, size_admit in Hfull by (rewrite He; set_solver).
      rewrite He, size_empty in Hfull. unfold total, CONCURRENCY in *. lia.
    + apply step_settle in Hstep as (Hj & s' & r & Ht & ->).
      destruct (task_of_step _ _ _ _ _ Ht) as (Hm1 & _).
      rewrite Hm1. destruct (main s0) eqn:Hms; try done.
      * simpl. by rewrite Hm1.
      * by destruct (drain_spec (set_active (active s' ∖ {[j]}) s'))
          as (_ & _ & _ & Hd); destruct (main (drain _)).
      * simpl. by rewrite Hm1.
    + simpl in Hstep. unfold abort in Hstep. destruct (controller a); [|done].
      by injection Hstep as <-.
Qed.

(** The answer of a fetch in flight can always be taken, and once every
    admitted fetch has answered the call is over: it has returned the
    accumulated records or thrown the outage error. *)
Lemma settle_enabled (s : State) (j : Z) (net : Network) :
  j ∈ active s → is_Some (step a s (Settle j net)).
Proof.
  intros Hj. unfold step. rewrite bool_decide_eq_true_2 by done.
  by destruct (task a _ s).
Qed.

Lemma settled_run_is_over (evs : list Event) (s : State) :
  exec a evs = Some s → main s ≠ NotCalled → active s = ∅ →
  main s = Returned (results s) ∨
  (main s = Thrown PREFEITURA_OFFLINE ∧ offline s = true).
Proof.
  intros (_ & _ & _ & _ & _ & Hmain)%exec_Inv Hcalled He.
  destruct (main s) as [|i| |rs|msg]; try done.
  - destruct Hmain as (_ & _ & Hfull & _).
    rewrite He, size_empty in Hfull. done.
  - by destruct Hmain.
  - left. by destruct Hmain as (-> & _).
  - right. by destruct Hmain as (-> & ->).
Qed.

End Runs.

(** * Concrete runs *)

Section Examples.

Import Sample.

Lemma no_abort_in (evs : list Event) :
  forallb (λ e, match e with Abort => false | _ => true end) evs = true →
  Abort ∉ evs.
Proof.
  induction evs as [|e evs IH]; simpl; intros H Hin.
  - by apply elem_of_nil in Hin.
  - apply andb_true_iff in H as [He Hrest].
    apply elem_of_cons in Hin as [<- | Hin]; [done | by apply IH].
Qed.

(** C1.  Range [1, 3], every fetch timing out: the third consecutive
    connection error brings the counter to the threshold and opens the
    circuit (the task aborts the controller and throws), yet the call
    returns the empty sequence instead of failing with the outage error.
    Range [1, 4] with a success between the errors: the counter is reset,
    the circuit stays closed and the call returns the records. *)
Theorem third_error_opens_circuit_run_returns :
  let s := final (args 1 3 true) three_errors in
  let s' := final (args 1 4 true) error_after_success in
  exec (args 1 3 true) three_errors = Some s ∧
  consecutiveConnErrors s = MAX_CONSECUTIVE_CONN_ERRORS ∧
  offline s = true ∧ aborted s = true ∧
  main s = Returned [] ∧
  exec (args 1 4 true) error_after_success = Some s' ∧
  consecutiveConnErrors s' = 1 ∧ offline s' = false ∧
  main s' = Returned (records_of (fetched "018/000003/2025" true net_ok)).
Proof. vm_compute. by split_and!. Qed.

(** C2.  Range [1, 3] without a controller, every fetch timing out: the
    circuit opens while the call is waiting for the remaining fetches, and
    the call returns the empty sequence; over the range [1, 25] the same
    three answers make it throw the outage error. *)
Theorem outage_while_draining_returns :
  let s := final (args 1 3 false) three_errors in
  let s' := final (args 1 25 false) three_errors in
  exec (args 1 3 false) three_errors = Some s ∧
  offline s = true ∧ main s = Returned [] ∧
  exec (args 1 25 false) three_errors = Some s' ∧
  offline s' = true ∧ main s' = Thrown PREFEITURA_OFFLINE.
Proof. vm_compute. by split_and!. Qed.

Lemma window_bound_witness :
  let s := final (args 1 25 true) [Start] in
  let s' := final (args 1 25 true) [Start; Settle 7 net_ok] in
  size (active s) = CONCURRENCY ∧ launched s = seqZ 1 20 ∧
  launched s' = launched s ++ [21] ∧
  active s' = {[21]} ∪ (active s ∖ {[7]}).
Proof.
  intros s s'.
  assert (exec (args 1 25 true) [Start] = Some s) as Hex by reflexivity.
  assert (step (args 1 25 true) s (Settle 7 net_ok) = Some s') as Hstep
    by (vm_compute; reflexivity).
  destruct (window_bound (args 1 25 true) [Start] s Hex)
    as (_ & Hslide & Hfill & Hfull & _).
  destruct Hfill as (s0 & Hex0 & _ & Hl0 & _); [vm_compute; discriminate|].
  assert (s0 = s) as -> by congruence.
  destruct Hfull as [Hsize | Hall].
  - vm_compute. discriminate.
  - reflexivity.
  - reflexivity.
  - destruct (Hslide 20 7 net_ok s') as [Hl Ha].
    + vm_compute. reflexivity.
    + simpl. lia.
    + exact Hstep.
    + vm_compute. reflexivity.
    + vm_compute. reflexivity.
    + split; [exact Hsize|]. split; [exact Hl0|]. split; [exact Hl | exact Ha].
  - exfalso. revert Hall. vm_compute. discriminate.
Defined.

Lemma progress_count_witness :
  let s := final (args 1 3 true) mixed in
  progress s = [(1, 3, false); (2, 3, true); (3, 3, false)] ∧
  Z.of_nat (length (progress s)) = 3.
Proof.
  intros s.
  assert (exec (args 1 3 true) mixed = Some s) as Hex
    by (vm_compute; reflexivity).
  destruct (progress_count (args 1 3 true) mixed s
              (records_of (fetched "018/000002/2025" true net_ok)))
    as [Hp Hl].
  - reflexivity.
  - simpl. lia.
  - exact Hex.
  - vm_compute. reflexivity.
  - apply no_abort_in. reflexivity.
  - vm_compute. reflexivity.
  - split; [|exact Hl]. rewrite Hp. vm_compute. reflexivity.
Defined.


Lemma results_are_fetched_records_witness :
  let s := final (args 1 3 true) mixed in
  results s = records_of (fetched "018/000002/2025" true net_ok) ∧
  main s = Returned (results s) ∧
  ∀ r, r ∈ results s →
    ∃ j net l, Settle j net ∈ mixed ∧
      fetched (numero (args 1 3 true) j) true net = Records l ∧ l ≠ [] ∧ r ∈ l.
Proof.
  intros s.
  assert (exec (args 1 3 true) mixed = Some s) as Hex
    by (vm_compute; reflexivity).
  destruct (results_are_fetched_records (args 1 3 true) mixed s Hex)
    as (Hfrom & Hret & _).
  split; [vm_compute; reflexivity|]. split; [|exact Hfrom].
  assert (main s = Returned (records_of (fetched "018/000002/2025" true net_ok)))
    as Hm by (vm_compute; reflexivity).
  rewrite <- (Hret _ Hm). exact Hm.
Defined.

(** A call made without a controller has no signal to abort.  On the range
    [1, 4] the circuit opens at the third error while the fourth fetch is in
    flight and the call waits for what is left; the call, which should have
    thrown then, goes on waiting, and the records of the fourth fetch reach
    the sequence it returns. *)
Lemma late_results_are_merged :
  let s := final (args 1 4 false) three_errors in
  let s' := final (args 1 4 false) (three_errors ++ [Settle 4 net_ok]) in
  exec (args 1 4 false) three_errors = Some s ∧
  offline s = true ∧ 4 ∈ active s ∧ results s = [] ∧
  exec_from (args 1 4 false) s [Settle 4 net_ok] = Some s' ∧
  main s' = Returned (records_of (fetched "018/000004/2025" true net_ok)) ∧
  ¬ stops_and_discards (args 1 4 false).
Proof.
  intros s s'.
  assert (exec (args 1 4 false) three_errors = Some s) as Hex
    by (vm_compute; reflexivity).
  assert (exec_from (args 1 4 false) s [Settle 4 net_ok] = Some s') as Hex'
    by (vm_compute; reflexivity).
  assert (offline s = true) as Hoff by (vm_compute; reflexivity).
  split_and!.
  - exact Hex.
  - exact Hoff.
  - apply (bool_decide_unpack (4 ∈ active s)). vm_compute. exact I.
  - vm_compute. reflexivity.
  - exact Hex'.
  - vm_compute. reflexivity.
  - intros H.
    destruct (H _ _ s s' Hex (or_introl Hoff) Hex') as (_ & Hres & _).
    revert Hres. vm_compute. discriminate.
Qed.

End Examples.

(** * More on the record fetcher *)

Section FetcherMore.

Import JsFacts.

Lemma canonicalize_has_slash (s : string) :
  Js.includes (canonicalize s) "/" = true.
Proof.
  unfold canonicalize. destruct (Js.includes s "/") eqn:Hs; [done|].
  rewrite includes_char_app. apply orb_true_iff. right.
  change ("/" +:+ ?x) with (String "/" x).
  rewrite includes_char_cons. by rewrite bool_decide_eq_true_2.
Qed.

(** X1.  Normalising an identifier twice is the same as normalising it
    once, and a normalised identifier always contains a slash; so the
    identifier the catch block and the records carry is never cut again. *)
Theorem canonicalize_idempotent (s : string) :
  canonicalize (canonicalize s) = canonicalize s ∧
  Js.includes (canonicalize s) "/" = true.
Proof.
  split; [|apply canonicalize_has_slash].
  unfold canonicalize at 1. by rewrite canonicalize_has_slash.
Qed.

(** X2.  A fetch resolves to the connection-error marker exactly when one
    of its two requests fails with an error that is not a cancellation and
    that the catch block recognises as a timeout or a connection failure;
    the marker then carries the normalised identifier. *)
Theorem marker_iff_connection_failure (numeroProcesso : string) (fo : bool)
    (net : Network) (m : string) :
  fetched numeroProcesso fo net = ConnectionErrorMarker m ↔
  m = canonicalize numeroProcesso ∧
  ∃ err, rejects_with net (canonicalize numeroProcesso) err ∧
         isCancelled err = false ∧ isTimeout err || isConnection err = true.
Proof.
  split.
  - unfold fetched, fetchProcessData, prepend, rejects_with. simpl.
    destruct (sessionResp net) as [c|err] eqn:Hs.
    + destruct (searchResp net _ _) as [doc|err] eqn:Hq.
      * intros H. by destruct (parse_not_marker _ _ _ _ H).
      * unfold on_error. destruct (isCancelled err) eqn:Hc; [done|].
        destruct (isTimeout err || isConnection err) eqn:Ht; [|done].
        intros [= <-]. split; [done|]. exists err. split_and!; try done.
        right. by exists c.
    + unfold on_error. destruct (isCancelled err) eqn:Hc; [done|].
      destruct (isTimeout err || isConnection err) eqn:Ht; [|done].
      intros [= <-]. split; [done|]. exists err. split_and!; try done. by left.
  - intros (-> & err & Hrej & Hc & Ht). unfold fetched.
    rewrite (fetched_rejected _ _ _ _ Hrej). unfold prepend, on_error. simpl.
    by rewrite Hc, Ht.
Qed.

Lemma fetched_records_parsed (numeroProcesso : string) (fo : bool)
    (net : Network) (l : list ProcessRecord) :
  fetched numeroProcesso fo net = Records l →
  ∃ doc, (parse (canonicalize numeroProcesso) fo doc).2 = Records l.
Proof.
  unfold fetched, fetchProcessData, prepend. simpl.
  destruct (sessionResp net) as [c|err].
  - destruct (searchResp net _ _) as [doc|err]; [by exists doc|].
    intros H. by destruct (on_error_shape (canonicalize numeroProcesso) err) as [H'|H'];
      rewrite H' in H.
  - intros H. by destruct (on_error_shape (canonicalize numeroProcesso) err) as [H'|H'];
      rewrite H' in H.
Qed.

Lemma infoBase_keys (numeroProcesso : string) (doc : Document) :
  (infoBase numeroProcesso doc).*1 = header_keys.
Proof. done. Qed.

Lemma formatarMovimento_keys (numeroProcesso : string) (doc : Document)
    (cols : list string) :
  (formatarMovimento (infoBase numeroProcesso doc) cols).*1
  = header_keys ++ movement_keys.
Proof. done. Qed.

Lemma parse_records (numeroProcesso : string) (fo : bool) (doc : Document)
    (l : list ProcessRecord) :
  (parse numeroProcesso fo doc).2 = Records l →
  l = [infoBase numeroProcesso doc] ∨
  (l ≠ [] ∧ ∀ r, r ∈ l →
     ∃ cols, r = formatarMovimento (infoBase numeroProcesso doc) cols).
Proof.
  unfold parse. destruct (has_table doc); simpl; [|done].
  destruct (rows doc) as [|tr trs] eqn:Hrows; simpl.
  - intros [= <-]. by left.
  - destruct fo; simpl; intros [= <-]; right.
    + split; [done|]. intros r ->%list_elem_of_singleton. by eexists.
    + split; [done|]. intros r Hr.
      change (r ∈ (λ tr, formatarMovimento (infoBase numeroProcesso doc) (cols_of tr))
                   <$> (tr :: trs)) in Hr.
      apply list_elem_of_fmap in Hr as (tr' & -> & _). by eexists.
Qed.

Lemma fetched_records_keys (numeroProcesso : string) (fo : bool)
    (net : Network) (l : list ProcessRecord) :
  fetched numeroProcesso fo net = Records l →
  ∀ r, r ∈ l →
    field r "Número do Processo" = Some (canonicalize numeroProcesso) ∧
    NoDup r.*1 ∧
    (r.*1 = header_keys ∨ r.*1 = header_keys ++ movement_keys) ∧
    ∀ r', r' ∈ l → r'.*1 = r.*1.
Proof.
  intros (doc & Hp)%fetched_records_parsed r Hr.
  assert (NoDup header_keys) as Hnd1
    by (apply (bool_decide_unpack _); vm_compute; exact I).
  assert (NoDup (header_keys ++ movement_keys)) as Hnd2
    by (apply (bool_decide_unpack _); vm_compute; exact I).
  destruct (parse_records _ _ _ _ Hp) as [-> | [_ Hall]].
  - apply list_elem_of_singleton in Hr as ->. split_and!; try done.
    + by left.
    + by intros r' ->%list_elem_of_singleton.
  - destruct (Hall r Hr) as (cols & ->). split_and!; try done.
    + by right.
    + intros r' Hr'. by destruct (Hall r' Hr') as (cols' & ->).
Qed.

(** X3.  Every record a fetch resolves to carries the normalised identifier
    under "Número do Processo"; its keys are distinct; they are the eight
    header attributes, alone or followed by the six movement attributes;
    and all the records of one fetch have the same keys in the same order. *)
Theorem fetched_records_shape (numeroProcesso : string) (fo : bool)
    (net : Network) (l : list ProcessRecord) :
  fetched numeroProcesso fo net = Records l →
  ∀ r, r ∈ l →
    field r "Número do Processo" = Some (canonicalize numeroProcesso) ∧
    NoDup r.*1 ∧
    (r.*1 = header_keys ∨ r.*1 = header_keys ++ movement_keys) ∧
    ∀ r', r' ∈ l → r'.*1 = r.*1.
Proof.
  intros Hf r Hr.
  destruct (fetched_records_keys _ _ _ _ Hf r Hr) as (Hid & Hnd & Hkeys & Hsame).
  by split_and!.
Qed.

Lemma fetched_records_shape_witness :
  let l := records_of (fetched "0180001232025" false Sample.net_ok) in
  length l = 2%nat ∧
  ∀ r, r ∈ l → field r "Número do Processo" = Some "018/000123/2025".
Proof.
  intros l. split; [reflexivity|]. intros r Hr.
  by destruct (fetched_records_shape "0180001232025" false Sample.net_ok l
                 eq_refl r Hr) as (? & _).
Defined.

(** X4.  A movement record always has the same fourteen fields, whatever
    the number of cells of the row: the header attributes keep their
    values, the first cell of the row is never used, cells one to six fill
    the movement attributes, and a cell the row does not have gives the
    empty string. *)
Theorem formatarMovimento_fields (numeroProcesso : string) (doc : Document)
    (cols : list string) :
  let info := infoBase numeroProcesso doc in
  let r := formatarMovimento info cols in
  length r = 14%nat ∧
  (∀ k, k ∈ header_keys → field r k = field info k) ∧
  (field r <$> movement_keys =
     Some <$> [col cols 1; col cols 2; col cols 3; col cols 4; col cols 5;
               col cols 6]) ∧
  (∀ c0 c0' rest,
     formatarMovimento info (c0 :: rest) = formatarMovimento info (c0' :: rest)) ∧
  ((length cols ≤ 1)%nat →
     field r <$> movement_keys = Some <$> ["";"";"";"";"";""]).
Proof.
  intros info r. split_and!.
  - done.
  - intros k Hk. unfold header_keys in Hk.
    repeat (apply elem_of_cons in Hk as [-> | Hk]; [done|]).
    by apply elem_of_nil in Hk.
  - done.
  - done.
  - intros Hlen. destruct cols as [|c0 [|c1 cols]]; [done | done | simpl in Hlen; lia].
Qed.

End FetcherMore.

(** * The exporter *)

Section Exporter.

Import JsFacts.

Lemma field_head (k v : string) (rest : ProcessRecord) :
  field ((k, v) :: rest) k = Some v.
Proof. simpl. by rewrite String.eqb_refl. Qed.

Lemma field_tail (k v h : string) (rest : ProcessRecord) :
  k ≠ h → field ((k, v) :: rest) h = field rest h.
Proof. intros Hne. simpl. by apply String.eqb_neq in Hne as ->. Qed.

(** Reading a record at its own keys gives its values, trimmed. *)
Lemma cell_own_keys (p : ProcessRecord) :
  NoDup p.*1 → cell p <$> p.*1 = Js.trim <$> p.*2.
Proof.
  induction p as [|[k v] p IH]; [done|].
  rewrite !fmap_cons. cbn [fst snd]. intros [Hk Hnd]%NoDup_cons. f_equal.
  - unfold cell. by rewrite field_head.
  - rewrite <- IH by done. apply list_fmap_ext.
    intros i h Hh. unfold cell. rewrite field_tail; [done|].
    intros ->. apply Hk. by eapply list_elem_of_lookup_2.
Qed.

(** A key the record lacks gives an empty cell. *)
Lemma cell_missing (p : ProcessRecord) (h : string) :
  h ∉ p.*1 → cell p h = "".
Proof.
  induction p as [|[k v] p IH]; [done|]. intros Hh.
  apply not_elem_of_cons in Hh as [Hne Hh]. unfold cell.
  rewrite field_tail by done. by apply IH.
Qed.

(** X5.  The sheet is a rectangle whose columns are the keys of the first
    record: it has one row of titles and one row for each record, every row
    as wide as the titles; and for no record it has the single cell
    "Nenhum resultado encontrado". *)
Theorem sheet_is_rectangular (first : ProcessRecord) (rest : list ProcessRecord) :
  sheet_rows [] = [["Nenhum resultado encontrado"]] ∧
  length (sheet_rows (first :: rest)) = S (S (length rest)) ∧
  head (sheet_rows (first :: rest)) = Some first.*1 ∧
  ∀ row, row ∈ sheet_rows (first :: rest) → length row = length first.
Proof.
  split_and!; try done.
  - simpl. by rewrite length_fmap.
  - intros row Hrow. unfold sheet_rows in Hrow.
    apply elem_of_cons in Hrow as [-> | Hrow].
    + by rewrite length_fmap.
    + apply list_elem_of_fmap in Hrow as (p & -> & _).
      by rewrite !length_fmap.
Qed.

Lemma sheet_rows_own_keys (first : ProcessRecord) (rest : list ProcessRecord) :
  (∀ p, p ∈ first :: rest → NoDup p.*1 ∧ p.*1 = first.*1) →
  sheet_rows (first :: rest) =
    first.*1 :: ((λ p, Js.trim <$> p.*2) <$> first :: rest).
Proof.
  intros Hall. unfold sheet_rows. f_equal.
  apply list_fmap_ext. intros i p Hp.
  destruct (Hall p) as [Hnd <-]; [by eapply list_elem_of_lookup_2|].
  by apply cell_own_keys.
Qed.

(** X6.  When the records have distinct keys and all have the keys of the
    first one, the sheet holds every value of every record, trimmed, in the
    column of its key and in the order of the records. *)
Theorem sheet_round_trip (first : ProcessRecord) (rest : list ProcessRecord) :
  (∀ p, p ∈ first :: rest → NoDup p.*1 ∧ p.*1 = first.*1) →
  sheet_rows (first :: rest) =
    first.*1 :: ((λ p, Js.trim <$> p.*2) <$> first :: rest).
Proof.
  intros Hall. rewrite sheet_rows_own_keys; [done|].
  intros p Hp. by destruct (Hall p Hp).
Qed.

Lemma sheet_round_trip_witness :
  let nbsp := String "194"%char (String "160"%char "") in
  sheet_rows [[("a", nbsp +:+ " 1 "); ("b", "2")];
              [("a", "3"); ("b", " 4" +:+ nbsp)]]
  = [["a"; "b"]; ["1"; "2"]; ["3"; "4"]].
Proof.
  intros nbsp. rewrite sheet_round_trip; [reflexivity|].
  intros p Hp. split.
  - apply (bool_decide_unpack _).
    repeat (apply elem_of_cons in Hp as [-> | Hp]; [vm_compute; exact I|]).
    by apply elem_of_nil in Hp.
  - repeat (apply elem_of_cons in Hp as [-> | Hp]; [reflexivity|]).
    by apply elem_of_nil in Hp.
Defined.

(** X7.  The sheet of what one fetch resolved to loses nothing: under the
    titles, the keys of the records, it has one row for each record with
    all the values of that record, trimmed. *)
Theorem fetch_export_round_trip (numeroProcesso : string) (fo : bool)
    (net : Network) (l : list ProcessRecord) :
  fetched numeroProcesso fo net = Records l →
  ∃ first rest, l = first :: rest ∧
    sheet_rows l = first.*1 :: ((λ p, Js.trim <$> p.*2) <$> l).
Proof.
  intros Hf.
  destruct l as [|first rest].
  { destruct (fetched_records_parsed _ _ _ _ Hf) as (doc & Hp).
    by destruct (parse_records_nonempty _ _ _ _ Hp). }
  exists first, rest. split; [done|]. apply sheet_rows_own_keys.
  intros p Hp.
  destruct (fetched_records_keys _ _ _ _ Hf p Hp) as (_ & Hnd & _ & Hsame).
  split; [done|]. symmetry. apply Hsame. apply elem_of_cons. by left.
Qed.

Lemma fetch_export_round_trip_witness :
  sheet_rows (records_of (fetched "0180001232025" true Sample.net_ok)) =
  [ header_keys ++ movement_keys;
    ["018/000123/2025"; "10/02/2025"; "MARIA"; ""; "ALVARA"; "";
     "EM ANDAMENTO"; "sem pendencias"; "13/02/2025"; "SMU"; "ANALISE"; "";
     "SMO"; "OBRAS"] ].
Proof.
  destruct (fetch_export_round_trip "0180001232025" true Sample.net_ok
              (records_of (fetched "0180001232025" true Sample.net_ok)) eq_refl)
    as (first & rest & Hl & ->).
  vm_compute in Hl. injection Hl as <- _. reflexivity.
Defined.

Lemma formatarMovimento_header (info : ProcessRecord) (cols : list string)
    (k : string) :
  k ∈ header_keys → info.*1 = header_keys →
  field (formatarMovimento info cols) k = field info k.
Proof.
  intros Hk Hkeys. unfold formatarMovimento.
  assert (k ∈ info.*1) as Hin by (by rewrite Hkeys). clear Hk Hkeys.
  induction info as [|[k' v] info IH]; [by apply elem_of_nil in Hin|].
  rewrite fmap_cons in Hin. cbn [fst] in Hin. cbn [app field].
  destruct (String.eqb k' k) eqn:Hkk; [done|].
  apply IH. apply elem_of_cons in Hin as [-> | Hin]; [|done].
  by rewrite String.eqb_refl in Hkk.
Qed.

(** X8.  The columns come from the first record alone: two batches whose
    records agree on the keys of the first record give the same sheet,
    whatever else the later records hold.  So after a header-only first
    record a movement record is exported as if it were the header-only
    record of its process, its six movement values being left out. *)
Theorem columns_of_first_record (first : ProcessRecord)
    (rest rest' : list ProcessRecord) :
  (Forall2 (λ p q, ∀ k, k ∈ first.*1 → field p k = field q k) rest rest' →
   sheet_rows (first :: rest) = sheet_rows (first :: rest')) ∧
  (first.*1 = header_keys →
   ∀ n doc cols,
     sheet_rows (first :: formatarMovimento (infoBase n doc) cols :: rest)
     = sheet_rows (first :: infoBase n doc :: rest)).
Proof.
  assert (∀ l l',
            Forall2 (λ p q, ∀ k, k ∈ first.*1 → field p k = field q k) l l' →
            sheet_rows (first :: l) = sheet_rows (first :: l')) as Hagree.
  { intros l l' Hall. unfold sheet_rows. f_equal. rewrite !fmap_cons. f_equal.
    induction Hall as [|p q l l' Hpq _ IH]; [done|].
    rewrite !fmap_cons, IH. f_equal.
    apply list_fmap_ext. intros i k Hk. unfold cell.
    rewrite Hpq; [done|]. by eapply list_elem_of_lookup_2. }
  split; [apply Hagree|].
  intros Hkeys n doc cols. apply Hagree. constructor.
  - intros k Hk. rewrite Hkeys in Hk. by apply formatarMovimento_header.
  - by apply Forall2_same_length_lookup_2; [|intros i p q Hp Hq; simplify_eq].
Qed.

Lemma columns_of_first_record_witness :
  sheet_rows [[("a", "1")]; [("a", "2"); ("b", "3")]]
    = sheet_rows [[("a", "1")]; [("a", "2")]] ∧
  sheet_rows [[("a", "1")]; [("a", "2"); ("b", "3")]] = [["a"]; ["1"]; ["2"]].
Proof.
  split; [|reflexivity].
  apply (columns_of_first_record [("a", "1")]
           [[("a", "2"); ("b", "3")]] [[("a", "2")]]).
  constructor; [|constructor].
  intros k Hk. apply elem_of_cons in Hk as [-> | Hk]; [reflexivity|].
  by apply elem_of_nil in Hk.
Defined.

Lemma safeName_char (c : ascii) (s : string) :
  safeName (String c s) =
  String (if is_path_separator c then "_"%char else c) (safeName s).
Proof. done. Qed.

Lemma safeName_no_char (x : ascii) (s : string) :
  is_path_separator x = true →
  Js.includes (safeName s) (String x "") = false.
Proof.
  intros Hx. induction s as [|c s IH]; [done|].
  rewrite safeName_char, includes_char_cons, IH, orb_false_r.
  apply bool_decide_eq_false_2.
  destruct (is_path_separator c) eqn:Hc.
  - intros ->. done.
  - intros ->. congruence.
Qed.

Lemma length_safeName (s : string) :
  String.length (safeName s) = String.length s.
Proof. induction s as [|c s IH]; [done|]. simpl. by rewrite IH. Qed.

Lemma rev_app_acc (s acc : string) :
  String.rev_app s acc = String.rev_app s "" +:+ acc.
Proof.
  revert acc. induction s as [|c s IH]; intros acc; [done|].
  simpl. rewrite (IH (String c acc)), (IH (String c "")).
  by rewrite app_assoc_string.
Qed.

Lemma rev_cons (c : ascii) (s : string) :
  String.rev (String c s) = String.rev s +:+ String c "".
Proof. unfold String.rev. simpl. apply rev_app_acc. Qed.

Lemma app_empty_r (s : string) : s +:+ "" = s.
Proof.
  induction s as [|c s IH]; [done|].
  change (String c (s +:+ "") = String c s). by rewrite IH.
Qed.

Lemma rev_app_string (s1 s2 : string) :
  String.rev (s1 +:+ s2) = String.rev s2 +:+ String.rev s1.
Proof.
  induction s1 as [|c s1 IH].
  - change ("" +:+ s2) with s2. by rewrite app_empty_r.
  - change (String c s1 +:+ s2) with (String c (s1 +:+ s2)).
    by rewrite !rev_cons, IH, app_assoc_string.
Qed.

Lemma rev_involutive_string (s : string) : String.rev (String.rev s) = s.
Proof.
  induction s as [|c s IH]; [done|].
  rewrite rev_cons, rev_app_string, IH. done.
Qed.

Lemma includes_char_rev (x : ascii) (s : string) :
  Js.includes (String.rev s) (String x "") = Js.includes s (String x "").
Proof.
  induction s as [|c s IH]; [done|].
  rewrite rev_cons, includes_char_app, IH, !includes_char_cons.
  rewrite includes_char_nil, orb_false_r. apply orb_comm.
Qed.

Lemma before_app (x : string) (rest : string) :
  no_slash x → Js.before "/" (x +:+ String "/" rest) = x.
Proof.
  induction x as [|c x IH]; intros Hx; [done|].
  unfold no_slash in Hx. rewrite includes_char_cons in Hx.
  apply orb_false_iff in Hx as [Hc Hx]. apply bool_decide_eq_false in Hc.
  change (String c x +:+ String "/" rest) with (String c (x +:+ String "/" rest)).
  simpl. destruct (Ascii.eqb_spec c "/") as [->|_]; [done|].
  by rewrite IH.
Qed.

Lemma basename_join (dir x : string) (c : ascii) :
  no_slash x → c ≠ "/"%char →
  Path.basename (dir +:+ "/" +:+ x +:+ String c "") = x +:+ String c "".
Proof.
  intros Hx Hc. unfold Path.basename.
  assert (String.rev (dir +:+ "/" +:+ x +:+ String c "")
          = String c (String.rev x) +:+ String "/" (String.rev dir)) as ->.
  { change (dir +:+ "/" +:+ x +:+ String c "")
      with (dir +:+ String "/" (x +:+ String c "")).
    rewrite rev_app_string, rev_cons, rev_app_string.
    change (String.rev (String c "")) with (String c "").
    by rewrite app_assoc_string. }
  change (String c (String.rev x) +:+ String "/" (String.rev dir))
    with (String c (String.rev x +:+ String "/" (String.rev dir))).
  simpl Path.dropSlashes. destruct (Ascii.eqb_spec c "/") as [->|_]; [done|].
  change (String c (String.rev x +:+ String "/" (String.rev dir)))
    with (String c (String.rev x) +:+ String "/" (String.rev dir)).
  rewrite before_app.
  - by rewrite rev_cons, rev_involutive_string.
  - unfold no_slash. rewrite includes_char_cons, includes_char_rev, Hx.
    by rewrite bool_decide_eq_false_2.
Qed.

(** X9.  The file name keeps no path separator, so the workbook is written
    in the export directory itself whatever the name asked for; the name is
    otherwise unchanged, character for character; and the link the routes
    send back is the name of the file written. *)
Theorem safeName_stays_in_directory (dir nomeArquivo : string) :
  Js.includes (safeName nomeArquivo) "/" = false ∧
  Js.includes (safeName nomeArquivo) (String "092" "") = false ∧
  String.length (safeName nomeArquivo) = String.length nomeArquivo ∧
  safeName (safeName nomeArquivo) = safeName nomeArquivo ∧
  relativePath (filePath dir nomeArquivo)
    = "/exports/" +:+ safeName nomeArquivo +:+ ".xlsx".
Proof.
  split_and!.
  - by apply safeName_no_char.
  - by apply safeName_no_char.
  - apply length_safeName.
  - induction nomeArquivo as [|c s IH]; [done|].
    rewrite !safeName_char, IH. f_equal.
    by destruct (is_path_separator c) eqn:Hc; [|rewrite Hc].
  - unfold relativePath, filePath. f_equal.
    change ".xlsx" with (".xls" +:+ String "x" "").
    rewrite <- (app_assoc_string (safeName nomeArquivo)).
    apply basename_join; [|done].
    apply no_slash_app. split; [by apply safeName_no_char | done].
Qed.

End Exporter.

(** * The routes *)

Section Routes.

Import JsFacts.

Lemma filter_sublist (f : ProcessRecord → bool) (l : list ProcessRecord) :
  sublist (List.filter f l) l.
Proof.
  induction l as [|p l IH]; [done|]. simpl.
  destruct (f p); by constructor.
Qed.

Lemma filter_elem_of (f : ProcessRecord → bool) (l : list ProcessRecord)
    (p : ProcessRecord) :
  p ∈ List.filter f l ↔ p ∈ l ∧ f p = true.
Proof. rewrite !list_elem_of_In. apply filter_In. Qed.

Lemma split_nonempty (sep : ascii) (s : string) : Js.split sep s ≠ [].
Proof.
  induction s as [|c s IH]; [done|]. simpl.
  destruct (Ascii.eqb c sep); [done|]. by destruct (Js.split sep s).
Qed.

Lemma setoresFiltro_nil (setores : option string) :
  setoresFiltro setores = [] ↔ setores = None ∨ setores = Some "".
Proof.
  unfold setoresFiltro. destruct setores as [s|]; [|by split; [left|]].
  case_bool_decide as Hs.
  - subst. split; [by right | done].
  - split.
    + intros H%fmap_nil_inv. by destruct (split_nonempty "," s).
    + intros [|[= ->]]; done.
Qed.

Lemma lower_char_idemp (c : ascii) :
  Js.lower_char (Js.lower_char c) = Js.lower_char c.
Proof. destruct c as [[] [] [] [] [] [] [] []]; reflexivity. Qed.

Lemma lower_char_lead (c : ascii) :
  (N_of_ascii (Js.lower_char c) =? 195)%N = (N_of_ascii c =? 195)%N.
Proof. destruct c as [[] [] [] [] [] [] [] []]; reflexivity. Qed.

Lemma lower_latin1_idemp (c : ascii) :
  Js.lower_latin1 (Js.lower_latin1 c) = Js.lower_latin1 c.
Proof. destruct c as [[] [] [] [] [] [] [] []]; reflexivity. Qed.

Lemma toLowerCase_cons (c : ascii) (s : string) :
  Js.toLowerCase (String c s) =
  if (N_of_ascii c =? 195)%N then
    match s with
    | String d s' => String c (String (Js.lower_latin1 d) (Js.toLowerCase s'))
    | EmptyString => String c EmptyString
    end
  else String (Js.lower_char c) (Js.toLowerCase s).
Proof. done. Qed.

(** Lower-casing reads a character of two bytes at once, so the induction
    carries the statement for the string and for the string after one more
    byte. *)
Lemma toLowerCase_idemp (s : string) :
  Js.toLowerCase (Js.toLowerCase s) = Js.toLowerCase s.
Proof.
  enough (Js.toLowerCase (Js.toLowerCase s) = Js.toLowerCase s ∧
          ∀ c, Js.toLowerCase (Js.toLowerCase (String c s))
               = Js.toLowerCase (String c s)) as [H _] by done.
  induction s as [|d s [IH1 IH2]].
  - split; [done|]. intros c. rewrite (toLowerCase_cons c "").
    destruct (N_of_ascii c =? 195)%N eqn:Hc.
    + rewrite toLowerCase_cons. by rewrite Hc.
    + rewrite toLowerCase_cons, lower_char_lead, Hc.
      by rewrite lower_char_idemp.
  - split; [apply IH2|]. intros c. rewrite (toLowerCase_cons c (String d s)).
    destruct (N_of_ascii c =? 195)%N eqn:Hc.
    + rewrite toLowerCase_cons, Hc. by rewrite lower_latin1_idemp, IH1.
    + rewrite toLowerCase_cons, lower_char_lead, Hc.
      by rewrite lower_char_idemp, IH2.
Qed.

Lemma toLowerCase_nonempty (s : string) : s ≠ "" → Js.toLowerCase s ≠ "".
Proof.
  destruct s as [|c s]; [done|]. intros _. rewrite toLowerCase_cons.
  destruct (N_of_ascii c =? 195)%N; [by destruct s | done].
Qed.

Lemma setoresFiltro_lower (setores : option string) (x : string) :
  x ∈ setoresFiltro setores → Js.toLowerCase x = x.
Proof.
  unfold setoresFiltro. destruct setores as [s|]; [|by intros ?%elem_of_nil].
  case_bool_decide; [by intros ?%elem_of_nil|].
  intros (y & -> & _)%list_elem_of_fmap. apply toLowerCase_idemp.
Qed.

(** X10.  For sectors, asked for and of the records, written with the
    characters of U+0000 to U+00FF: the sector filter keeps the records in
    their order and keeps a record only when its "Setor Origem", in lower
    case, is one of the sectors asked for; without the parameter, or with an
    empty one, every record is kept; with any other parameter the
    header-only records, which have no "Setor Origem", are all left out; and
    filtering twice changes nothing. *)
Theorem sector_filter (setores : option string) (processos : list ProcessRecord) :
  Js.latin1 (default "" setores) = true →
  forallb (latin1_field "Setor Origem") processos = true →
  let filtro := setoresFiltro setores in
  let out := filter_setores filtro processos in
  sublist out processos ∧
  (setores = None ∨ setores = Some "" → out = processos) ∧
  (setores ≠ None → setores ≠ Some "" →
     ∀ p, p ∈ out ↔
       p ∈ processos ∧
       ∃ v, field p "Setor Origem" = Some v ∧ Js.toLowerCase v ∈ filtro) ∧
  (setores ≠ None → setores ≠ Some "" →
     ∀ n doc, infoBase n doc ∉ out) ∧
  filter_setores filtro out = out.
Proof.
  intros _ _ filtro out. subst out. unfold filter_setores.
  destruct (length filtro =? 0)%nat eqn:Hlen.
  - apply Nat.eqb_eq, nil_length_inv in Hlen.
    apply setoresFiltro_nil in Hlen as Hs.
    split_and!; try done. all: intros; tauto.
  - apply Nat.eqb_neq in Hlen.
    assert (∀ p, p ∈ List.filter (setor_matches filtro) processos ↔
              p ∈ processos ∧
              ∃ v, field p "Setor Origem" = Some v ∧ Js.toLowerCase v ∈ filtro)
      as Hchar.
    { intros p. rewrite filter_elem_of. unfold setor_matches.
      destruct (field p "Setor Origem") as [v|].
      - rewrite bool_decide_eq_true. split.
        + intros [? ?]. split; [done|]. by exists v.
        + intros [? (v' & [= <-] & ?)]. done.
      - split; [by intros [? ?] | by intros [? (v' & ? & ?)]]. }
    split_and!.
    + apply filter_sublist.
    + intros Hs. apply setoresFiltro_nil in Hs. fold filtro in Hs.
      rewrite Hs in Hlen. done.
    + intros _ _. apply Hchar.
    + intros _ _ n doc (_ & v & Hv & _)%Hchar. done.
    + clear Hchar. induction processos as [|p l IH]; [done|]. simpl.
      destruct (setor_matches filtro p) eqn:Hp; [|done].
      simpl. by rewrite Hp, IH.
Qed.

Lemma sector_filter_witness :
  let info := infoBase "018/000123/2025" (Sample.doc_of true []) in
  let l := [ formatarMovimento info
               ["1"; "11/02/2025"; "SME"; "EDUCAÇÃO"; ""; "SMF"; "PROTOCOLO"];
             formatarMovimento info
               ["2"; "12/02/2025"; "SMF"; "PROTOCOLO"; ""; "SMU"; "ANALISE"];
             info ] in
  filter_setores (setoresFiltro (Some " Educação ,x")) l
    = [ formatarMovimento info
          ["1"; "11/02/2025"; "SME"; "EDUCAÇÃO"; ""; "SMF"; "PROTOCOLO"] ] ∧
  info ∉ filter_setores (setoresFiltro (Some " Educação ,x")) l.
Proof.
  intros info l. split; [reflexivity|].
  destruct (sector_filter (Some " Educação ,x") l eq_refl eq_refl)
    as (_ & _ & _ & Hdrop & _).
  apply Hdrop; discriminate.
Defined.

(** X11.  For names, asked for and of the records, written with the
    characters of U+0000 to U+00FF: the name filter keeps the records in
    their order and keeps a record only when the name asked for occurs in
    its "Interessado" or in its "Requerente"; the comparison ignores the
    case of the letters, of the record and of the name alike; without a
    name, or with an empty one, every record is kept. *)
Theorem name_filter (nome : string) (processos : list ProcessRecord) :
  Js.latin1 nome = true →
  forallb (latin1_field "Interessado") processos = true →
  forallb (latin1_field "Requerente") processos = true →
  sublist (filter_nome (Some nome) processos) processos ∧
  filter_nome None processos = processos ∧
  filter_nome (Some "") processos = processos ∧
  (nome ≠ "" →
     ∀ p, p ∈ filter_nome (Some nome) processos ↔
       p ∈ processos ∧
       ∃ k v, (k = "Interessado" ∨ k = "Requerente") ∧ field p k = Some v ∧
              Js.includes (Js.toLowerCase v) (Js.toLowerCase nome) = true) ∧
  (nome ≠ "" →
     filter_nome (Some (Js.toLowerCase nome)) processos
     = filter_nome (Some nome) processos).
Proof.
  intros _ _ _. split_and!; try done.
  - unfold filter_nome. case_bool_decide; [done | apply filter_sublist].
  - intros Hne p. unfold filter_nome. rewrite bool_decide_eq_false_2 by done.
    rewrite filter_elem_of. unfold nome_matches, field_includes.
    rewrite orb_true_iff. split.
    + intros [Hp [Hm | Hm]]; (split; [done|]).
      * destruct (field p "Interessado") as [v|] eqn:Hf; [|done].
        exists "Interessado", v. by split_and!; [left| |].
      * destruct (field p "Requerente") as [v|] eqn:Hf; [|done].
        exists "Requerente", v. by split_and!; [right| |].
    + intros [Hp (k & v & [-> | ->] & Hf & Hm)]; (split; [done|]);
        [left | right]; by rewrite Hf.
  - intros Hne. unfold filter_nome.
    pose proof (toLowerCase_nonempty _ Hne) as Hne'.
    rewrite !bool_decide_eq_false_2 by done.
    induction processos as [|p l IH]; [done|]. simpl.
    assert (nome_matches (Js.toLowerCase nome) p = nome_matches nome p) as ->.
    { unfold nome_matches, field_includes. by rewrite toLowerCase_idemp. }
    by rewrite IH.
Qed.

Lemma name_filter_witness :
  let l := [ infoBase "018/000123/2025" (Sample.doc_of true []);
             [("Número do Processo", "018/000124/2025");
              ("Interessado", "JOÃO DA CONCEIÇÃO"); ("Requerente", "")] ] in
  filter_nome (Some "joão") l
    = [ [("Número do Processo", "018/000124/2025");
         ("Interessado", "JOÃO DA CONCEIÇÃO"); ("Requerente", "")] ] ∧
  filter_nome (Some "CONCEIÇÃO") l = filter_nome (Some "conceição") l ∧
  length (filter_nome (Some "mAr") l) = 1%nat.
Proof.
  intros l. split; [reflexivity|]. split; [|reflexivity].
  destruct (name_filter "CONCEIÇÃO" l eq_refl eq_refl eq_refl)
    as (_ & _ & _ & _ & Hcase).
  symmetry. apply Hcase. discriminate.
Defined.

(** X12.  What [GET /api/process] replies for a number that is given: 503
    when a request of the fetch times out; 404 when the document has no
    table, and also when a request is cancelled or fails unexpectedly; 500
    only when the workbook cannot be written; and a success only with a
    sheet that has a title row and at least one record row, under a link
    that is the number with its separators replaced. *)
Theorem api_process_replies (dir n : string) (firstOnly : option string)
    (net : Network) (disk_ok : bool) :
  n ≠ "" →
  let reply := api_process dir (Some n) firstOnly net disk_ok in
  (∀ err, rejects_with net (canonicalize n) err → timeout_failure err →
     reply = Unavailable) ∧
  (finds_no_table net (canonicalize n) → reply = NotFound) ∧
  (∀ err, rejects_with net (canonicalize n) err →
     cancellation_failure err ∨ unexpected_failure err → reply = NotFound) ∧
  (reply = ServerError → disk_ok = false) ∧
  reply ≠ BadRequest ∧
  (∀ file rows, reply = Exported file rows →
     file = "/exports/" +:+ safeName n +:+ ".xlsx" ∧
     ∃ first rest,
       fetched n (bool_decide (firstOnly = Some "true")) net
         = Records (first :: rest) ∧
       rows = sheet_rows (first :: rest) ∧
       length rows = S (S (length rest))).
Proof.
  intros Hn reply. subst reply. unfold api_process.
  rewrite bool_decide_eq_false_2 by done.
  set (fo := bool_decide (firstOnly = Some "true")).
  split_and!.
  - intros err Hrej Ht. unfold fetched.
    rewrite (fetched_rejected _ _ _ _ Hrej). unfold prepend, on_error. simpl.
    by rewrite (timeout_not_cancelled _ Ht), (timeout_takes_connection_branch _ Ht).
  - intros (c & doc & Hs & Hq & Ht).
    rewrite (fetched_fulfilled _ _ _ _ _ Hs Hq). unfold parse. by rewrite Ht.
  - intros err Hrej Hkind. unfold fetched.
    rewrite (fetched_rejected _ _ _ _ Hrej). unfold prepend, on_error. simpl.
    destruct Hkind as [Hc%isCancelled_iff | (Hc & Ht & Hx)].
    + by rewrite Hc.
    + by rewrite Hc, Ht, Hx.
  - destruct (fetched n fo net); try done. by destruct disk_ok.
  - destruct (fetched n fo net); try done. by destruct disk_ok.
  - intros file rows. destruct (fetched n fo net) as [|l|m] eqn:Hf; try done.
    destruct disk_ok; [|done]. intros [= <- <-]. split.
    + unfold exportToExcel. simpl. unfold relativePath, filePath. f_equal.
      change ".xlsx" with (".xls" +:+ String "x" "").
      rewrite <- (app_assoc_string (safeName n)).
      apply basename_join; [|done].
      apply no_slash_app. split; [by apply safeName_no_char | done].
    + destruct l as [|first rest].
      { destruct (fetched_records_parsed _ _ _ _ Hf) as (doc & Hp).
        by destruct (parse_records_nonempty _ _ _ _ Hp). }
      exists first, rest. split_and!; try done.
      simpl. by rewrite length_fmap.
Qed.

Lemma api_process_replies_witness :
  api_process "/srv/exports" (Some "0180001232025") None Sample.net_down true
    = Unavailable ∧
  api_process "/srv/exports" (Some "0180001232025") None Sample.net_broken true
    = NotFound.
Proof.
  split.
  - apply (api_process_replies "/srv/exports" "0180001232025" None
             Sample.net_down true) with (err := Sample.timeout_err).
    + discriminate.
    + left. reflexivity.
    + unfold timeout_failure. simpl. split_and!; try done. by left.
  - destruct (api_process_replies "/srv/exports" "0180001232025" None
                Sample.net_broken true) as (_ & _ & H & _); [discriminate|].
    apply (H Sample.parse_err).
    + right. exists None. split; reflexivity.
    + right. unfold unexpected_failure. split_and!; reflexivity.
Defined.

End Routes.

(** * More on the batch controller *)

Section ControllerMore.

Variable a : Args.

Lemma exec_from_invariant (P : State → Prop) (evs : list Event) (s s' : State) :
  (∀ s0 e s1, P s0 → step a s0 e = Some s1 → P s1) →
  P s → exec_from a s evs = Some s' → P s'.
Proof.
  intros Hstep. revert s. induction evs as [|e evs IH]; intros s HP Hex; simpl in Hex.
  - by injection Hex as <-.
  - destruct (step a s e) as [s1|] eqn:Hs; [|done].
    eapply IH; [|done]. by eapply Hstep.
Qed.

Lemma exec_snoc (evs : list Event) (e : Event) (s' : State) :
  exec a (evs ++ [e]) = Some s' ↔
  ∃ s, exec a evs = Some s ∧ step a s e = Some s'.
Proof.
  unfold exec. rewrite exec_from_app. split.
  - intros (s & Hex & Hs). exists s. split; [done|]. simpl in Hs.
    destruct (step a s e); by simplify_eq.
  - intros (s & Hex & Hs). exists s. split; [done|]. simpl. by rewrite Hs.
Qed.

(** The loop admits as many identifiers as it adds promises to the set. *)
Lemma for_from_balance (i : Z) (s : State) :
  (∀ j, j ∈ active s → j < i) →
  ∃ k : nat,
    (k ≤ Z.to_nat (end_ a + 1 - i))%nat ∧
    admitted (for_from a i s) = admitted s + Z.of_nat k ∧
    size (active (for_from a i s)) = (k + size (active s))%nat.
Proof.
  intros Hlt. unfold for_from.
  destruct (for_loop_spec a (Z.to_nat (end_ a + 1 - i)) i s)
    as (k & Hk & Hl & Hact & _).
  exists k. split_and!; [done | |].
  - unfold admitted. rewrite Hl, length_app, length_seqZ. lia.
  - rewrite Hact. by apply size_admit.
Qed.

Lemma step_balance (s s' : State) (e : Event) :
  Inv a s → step a s e = Some s' →
  ∃ k : nat,
    admitted s' = admitted s + Z.of_nat k ∧
    Z.of_nat (size (active s')) =
      Z.of_nat (size (active s)) + Z.of_nat k
      - Z.of_nat (length (outcomes a [e])) ∧
    admitted s' ≤ admitted s `max` (0 `max` total a).
Proof.
  intros (Hseq & Hsub & Hsize & _ & _ & Hmain) Hstep.
  destruct e as [|j net|].
  - simpl in Hstep. destruct (main s) eqn:Hms; try done.
    injection Hstep as <-. destruct Hmain as (He & Hl & _).
    destruct (for_from_balance (start a) s) as (k & Hk & Hadm & Hsz).
    { intros j Hj. rewrite He in Hj. by apply not_elem_of_empty in Hj. }
    exists k. unfold fetchBatchProcesses. rewrite Hadm, Hsz. simpl.
    split_and!; [done | lia |].
    unfold admitted, total in *. rewrite Hl. simpl. lia.
  - apply step_settle in Hstep as (Hj & s1 & r & Ht & ->).
    destruct (task_of_step _ _ _ _ _ Ht) as (Hm1 & Ha1 & Hl1 & _).
    set (s2 := set_active (active s1 ∖ {[j]}) s1).
    assert (admitted s2 = admitted s) as Hadm2
      by (unfold admitted; simpl; by rewrite Hl1).
    assert (size (active s2) = size (active s) - 1)%nat as Hsz2.
    { simpl. rewrite Ha1. by apply size_settled. }
    assert (0 < size (active s))%nat as Hpos.
    { destruct (decide (size (active s) = 0)%nat) as [H0|]; [|lia].
      apply size_empty_iff in H0. apply H0 in Hj.
      by apply not_elem_of_empty in Hj. }
    assert (∃ k : nat,
              admitted s2 = admitted s + Z.of_nat k ∧
              Z.of_nat (size (active s2)) =
                Z.of_nat (size (active s)) + Z.of_nat k - 1 ∧
              admitted s2 ≤ admitted s `max` (0 `max` total a)) as Hstay.
    { exists O. split_and!; lia. }
    change (Z.of_nat (length (outcomes a [Settle j net]))) with 1.
    rewrite Hm1.
    destruct (main s) as [|i| | |] eqn:Hms; try done.
    + destruct r; [|done]. destruct Hmain as (Hi & Hie & Hfull & _).
      unfold while_loop.
      assert ((CONCURRENCY <=? size (active s2))%nat = false) as ->
        by (apply Nat.leb_gt; lia).
      destruct (for_from_balance (i + 1) s2) as (k & Hk & Hadm & Hsz).
      { intros x Hx. simpl in Hx. rewrite Ha1 in Hx.
        assert (x ∈ launched s) as Hl by (apply Hsub; set_solver).
        rewrite Hseq in Hl. apply elem_of_seqZ in Hl. lia. }
      exists k. rewrite Hadm, Hsz, Hadm2, Hsz2.
      split_and!; [done | lia |]. unfold total. lia.
    + destruct (drain_spec s2) as (Hl & Hact & _).
      assert (admitted (drain s2) = admitted s2) as ->
        by (unfold admitted; by rewrite Hl).
      rewrite Hact. apply Hstay.
  - simpl in Hstep. unfold abort in Hstep. destruct (controller a); [|done].
    injection Hstep as <-. exists O. simpl. unfold admitted. simpl. lia.
Qed.

(** What a task does to the counters, the callback log and the records. *)
Lemma task_counts (data : FetchData) (s s1 : State) (r : TaskResult) :
  task a data s = (s1, r) →
  (signal_aborted a s = true ∧ s1 = s) ∨
  (signal_aborted a s = false ∧
   doneCount s1 = doneCount s + 1 ∧
   progress s1 =
     (if onProgress a
      then progress s ++ [(doneCount s + 1, total a, is_connection_error data)]
      else progress s) ∧
   results s1 =
     results s ++ (if is_connection_error data then [] else records_of data)).
Proof.
  unfold task. destruct (signal_aborted a s); [intros [= <- _]; by left|].
  right. split; [done|]. destruct data as [|l|n].
  - injection H as <- _. simpl. by rewrite app_nil_r.
  - injection H as <- _. unfold push. simpl.
    destruct (0 <? length l)%nat eqn:Hl; simpl; split_and!; try done.
    apply Nat.ltb_ge in Hl. destruct l; [|simpl in Hl; lia]. by rewrite app_nil_r.
  - simpl in H.
    destruct (MAX_CONSECUTIVE_CONN_ERRORS <=? consecutiveConnErrors s + 1);
      injection H as <- _; unfold abort; [destruct (controller a)|]; simpl;
      by rewrite app_nil_r.
Qed.

Lemma first_only_one_record (numeroProcesso : string) (net : Network) :
  (length (records_of (fetched numeroProcesso true net)) ≤ 1)%nat.
Proof.
  unfold fetched, fetchProcessData, prepend. simpl.
  assert (∀ err, (length (records_of (on_error (canonicalize numeroProcesso) err).2) ≤ 1)%nat)
    as Herr.
  { intros err. by destruct (on_error_shape (canonicalize numeroProcesso) err) as [-> | ->];
      simpl; lia. }
  destruct (sessionResp net) as [c|err]; [|apply Herr].
  destruct (searchResp net _ _) as [doc|err]; [|apply Herr].
  unfold parse. destruct (has_table doc); simpl; [|lia].
  destruct (length (rows doc) =? 0)%nat; simpl; lia.
Qed.

Lemma init_Tally : Tally a init.
Proof.
  unfold Tally, admitted. change (active init) with (∅ : gset Z).
  rewrite size_empty. simpl. split_and!; try done; try lia.
Qed.

Lemma step_Tally (s s' : State) (e : Event) :
  Inv a s ∧ Tally a s → step a s e = Some s' → Inv a s' ∧ Tally a s'.
Proof.
  intros [HI (Hd0 & Hbal & Hadm & Hple & Hplen & Hpent & Hfirst)] Hstep.
  split; [by eapply step_Inv|].
  destruct (step_balance _ _ _ HI Hstep) as (k & Hadm' & Hsz' & Hbound).
  destruct (step_data _ _ _ _ Hstep)
    as [(-> & _ & Hsame) | [(-> & Hc & ->) | (j & net & s1 & r & -> & _ & Ht & Hsame)]].
  - destruct Hsame as (_ & _ & Hsd & Hsr & Hsp & _).
    unfold Tally. rewrite Hsd, Hsr, Hsp. simpl in Hsz'.
    split_and!; try done; lia.
  - unfold abort. rewrite Hc. unfold Tally, admitted in *. simpl.
    split_and!; done.
  - destruct Hsame as (_ & _ & Hsd & Hsr & Hsp & _).
    unfold Tally. rewrite Hsd, Hsr, Hsp. simpl in Hsz'.
    destruct (task_counts _ _ _ _ Ht) as [(_ & ->) | (_ & Hd & Hp & Hr)].
    + split_and!; try done; lia.
    + rewrite Hd, Hp, Hr. split_and!.
      * lia.
      * lia.
      * lia.
      * destruct (onProgress a); [rewrite length_app; simpl|]; lia.
      * intros Hon. rewrite Hon, length_app. simpl. specialize (Hplen Hon). lia.
      * intros i c t f. destruct (onProgress a) eqn:Hon; [|apply Hpent].
        specialize (Hplen eq_refl).
        destruct (decide (i < length (progress s))%nat) as [Hlt|Hge].
        { rewrite lookup_app_l by done. apply Hpent. }
        rewrite lookup_app_r by lia.
        destruct (i - length (progress s))%nat as [|n] eqn:Hi; [|done].
        simpl. intros [= <- <- <-]. split; [lia | done].
      * intros Hfo. specialize (Hfirst Hfo). rewrite length_app.
        destruct (is_connection_error _); [simpl; lia|].
        rewrite Hfo. pose proof (first_only_one_record (numero a j) net). lia.
Qed.

Lemma exec_Tally (evs : list Event) (s : State) :
  exec a evs = Some s → Inv a s ∧ Tally a s.
Proof.
  apply (exec_from_invariant (λ s, Inv a s ∧ Tally a s)).
  - intros s0 e s1. apply step_Tally.
  - split; [apply init_Inv | apply init_Tally].
Qed.

Lemma seqZ_max (m n : Z) : seqZ m (0 `max` n) = seqZ m n.
Proof. unfold seqZ. f_equal. f_equal. lia. Qed.

(** X13.  Identifiers are admitted in increasing order from [start],
    without gap and without repetition, and never beyond [end]; what is in
    flight has been admitted; and a call that returns with the signal not
    aborted has admitted the whole range, each identifier once. *)
Theorem admission_order (evs : list Event) (s : State) :
  exec a evs = Some s →
  launched s = seqZ (start a) (admitted s) ∧
  NoDup (launched s) ∧
  (∀ j, j ∈ launched s → start a ≤ j ≤ end_ a) ∧
  (∀ j, j ∈ active s → j ∈ launched s) ∧
  (∀ rs, main s = Returned rs → signal_aborted a s = false →
     launched s = seqZ (start a) (total a)).
Proof.
  intros [HI HT]%exec_Tally.
  destruct HI as (Hseq & Hsub & _ & _ & _ & Hmain).
  destruct HT as (_ & _ & Hadm & _).
  split_and!; try done.
  - rewrite Hseq. apply NoDup_seqZ.
  - intros j Hj. rewrite Hseq in Hj. apply elem_of_seqZ in Hj.
    unfold total in Hadm. lia.
  - intros rs Hret Hna. rewrite Hret in Hmain. destruct Hmain as (_ & _ & Hall).
    rewrite Hseq at 1. rewrite (Hall Hna). unfold total.
    replace (end_ a + 1 - start a) with (end_ a - start a + 1) by lia.
    apply seqZ_max.
Qed.

Lemma settled_in_range (evs : list Event) (s : State) (j : Z) (net : Network) :
  exec a evs = Some s → Settle j net ∈ evs → start a ≤ j ≤ end_ a.
Proof.
  intros Hex (evs1 & evs2 & ->)%list_elem_of_split.
  apply exec_from_app in Hex as (s1 & Hex1 & Hex2). cbn [exec_from] in Hex2.
  destruct (step a s1 (Settle j net)) as [s2|] eqn:Hstep; [|done].
  apply step_settle in Hstep as (Hj & _).
  destruct (exec_Tally _ _ Hex1) as [(Hseq & Hsub & _) (_ & _ & Hadm & _)].
  apply Hsub in Hj. rewrite Hseq in Hj. apply elem_of_seqZ in Hj.
  unfold total in Hadm. lia.
Qed.

Lemma canonicalize_numero (i : Z) : canonicalize (numero a i) = numero a i.
Proof.
  unfold canonicalize.
  assert (Js.includes (numero a i) "/" = true) as ->; [|done].
  unfold numero. rewrite JsFacts.includes_char_app. apply orb_true_iff. right.
  change ("/" +:+ ?x) with (String "/" x).
  rewrite JsFacts.includes_char_cons. by rewrite bool_decide_eq_true_2.
Qed.

(** X14.  Every record of the accumulated sequence is labelled, under
    "Número do Processo", with the identifier of a sequence number of the
    requested range. *)
Theorem records_labelled_in_range (evs : list Event) (s : State) :
  exec a evs = Some s →
  ∀ r, r ∈ results s →
    ∃ j, start a ≤ j ≤ end_ a ∧
         field r "Número do Processo" = Some (numero a j).
Proof.
  intros Hex r Hr.
  destruct (exec_from_results _ _ _ _ _ Hex Hr)
    as [Hin | (j & net & l & Hev & Hf & _ & Hrl)].
  { simpl in Hin. by apply elem_of_nil in Hin. }
  exists j. split; [by eapply settled_in_range|].
  destruct (fetched_records_keys _ _ _ _ Hf r Hrl) as (Hid & _).
  by rewrite canonicalize_numero in Hid.
Qed.

(** X15.  In every run, aborted or not, the k-th call of the progress
    callback carries the count k and the total, and the count never
    exceeds the total; the counter of completed attempts never exceeds the
    number of identifiers of the range. *)
Theorem progress_never_overshoots (evs : list Event) (s : State) :
  exec a evs = Some s →
  (∀ k c t f, progress s !! k = Some (c, t, f) →
     c = Z.of_nat k + 1 ∧ t = total a ∧ c ≤ t) ∧
  0 ≤ doneCount s ≤ 0 `max` total a ∧
  (onProgress a = true → Z.of_nat (length (progress s)) = doneCount s).
Proof.
  intros [_ (Hd0 & Hbal & Hadm & Hple & Hplen & Hpent & _)]%exec_Tally.
  split_and!; try done; try lia.
  intros k c t f Hk. destruct (Hpent _ _ _ _ Hk) as [-> ->].
  split_and!; try done.
  apply lookup_lt_Some in Hk. lia.
Qed.

(** X16.  With firstOnly every completed attempt contributes at most one
    record, so the accumulated sequence never has more records than the
    range has identifiers. *)
Theorem first_only_bound (evs : list Event) (s : State) :
  firstOnly a = true → exec a evs = Some s →
  Z.of_nat (length (results s)) ≤ doneCount s ∧
  Z.of_nat (length (results s)) ≤ 0 `max` total a.
Proof.
  intros Hfo [_ (Hd0 & Hbal & Hadm & _ & _ & _ & Hfirst)]%exec_Tally.
  specialize (Hfirst Hfo). lia.
Qed.

(** X17.  A call over an empty range, and a call made with a controller
    that is already aborted, start no fetch, call the callback never and
    return the empty sequence at once. *)
Theorem nothing_to_fetch :
  (end_ a < start a →
     ∃ s, exec a [Start] = Some s ∧
          main s = Returned [] ∧ launched s = [] ∧ progress s = []) ∧
  (controller a = true →
     ∃ s, exec a [Abort; Start] = Some s ∧
          main s = Returned [] ∧ launched s = [] ∧ progress s = []).
Proof.
  split.
  - intros Hempty. eexists. split; [done|].
    unfold fetchBatchProcesses, for_from.
    replace (Z.to_nat (end_ a + 1 - start a)) with O by lia. done.
  - intros Hc. exists (fetchBatchProcesses a (abort a init)). split.
    { unfold exec. cbn [exec_from step]. rewrite Hc.
      unfold abort. rewrite Hc. done. }
    unfold fetchBatchProcesses, for_from. rewrite for_loop_aborted.
    + unfold abort. rewrite Hc. done.
    + unfold abort, signal_aborted. by rewrite Hc.
Qed.

Lemma outcomes_app (evs evs' : list Event) :
  outcomes a (evs ++ evs') = outcomes a evs ++ outcomes a evs'.
Proof.
  induction evs as [|e evs IH]; [done|]. destruct e; simpl; by rewrite ?IH.
Qed.

Lemma connection_errors_snoc (evs : list Event) (e : Event) :
  connection_errors a (evs ++ [e]) =
  (connection_errors a evs + connection_errors a [e])%nat.
Proof.
  unfold connection_errors. by rewrite outcomes_app, List.filter_app, length_app.
Qed.

Lemma step_errors (s s' : State) (e : Event) :
  step a s e = Some s' → 0 ≤ consecutiveConnErrors s →
  0 ≤ consecutiveConnErrors s' ≤
    consecutiveConnErrors s + Z.of_nat (connection_errors a [e]) ∧
  (offline s' = true →
     offline s = true ∨
     (connection_errors a [e] = 1%nat ∧
      MAX_CONSECUTIVE_CONN_ERRORS ≤ consecutiveConnErrors s + 1)).
Proof.
  intros Hstep H0.
  destruct (step_data _ _ _ _ Hstep)
    as [(-> & _ & Hsame) | [(-> & Hc & ->) | (j & net & s1 & r & -> & _ & Ht & Hsame)]].
  - destruct Hsame as (_ & -> & _ & _ & _ & ->). unfold connection_errors. simpl.
    split; [lia | by left].
  - unfold abort. rewrite Hc. unfold connection_errors. simpl.
    split; [lia | by left].
  - destruct Hsame as (_ & -> & _ & _ & _ & ->).
    unfold connection_errors. simpl.
    destruct (task_of_step _ _ _ _ _ Ht)
      as (_ & _ & _ & [(_ & -> & _) | [(_ & _ & Hce & _ & _ & _ & Hn & Hmax) | (_ & _ & _ & Ho & _ & _ & _ & Hn & _)]]).
    + split; [|by left].
      destruct (is_connection_error _); simpl; lia.
    + rewrite Hce. simpl. split; [lia|]. intros _. right. split; [done|lia].
    + rewrite Hn, Ho. split; [|by left].
      destruct (is_connection_error _); simpl; lia.
Qed.

(** X18.  The circuit opens only after at least three fetches of the run
    have resolved to the connection-error marker: one or two failing
    identifiers never stop a batch.  The counter itself never exceeds the
    number of such fetches. *)
Theorem circuit_needs_three_errors (evs : list Event) (s : State) :
  exec a evs = Some s →
  0 ≤ consecutiveConnErrors s ≤ Z.of_nat (connection_errors a evs) ∧
  (offline s = true → (3 ≤ connection_errors a evs)%nat) ∧
  (∀ msg, main s = Thrown msg → (3 ≤ connection_errors a evs)%nat).
Proof.
  intros Hex.
  assert (0 ≤ consecutiveConnErrors s ≤ Z.of_nat (connection_errors a evs) ∧
          (offline s = true → (3 ≤ connection_errors a evs)%nat)) as [Hc Ho].
  { revert s Hex. induction evs as [|e evs IH] using rev_ind; intros s Hex.
    - injection Hex as <-. by split.
    - apply exec_snoc in Hex as (s0 & Hex & Hstep).
      destruct (IH _ Hex) as [Hc Ho].
      destruct (step_errors _ _ _ Hstep) as [Hc' Ho']; [lia|].
      rewrite connection_errors_snoc. split; [lia|].
      intros [Hoff | [He Hmax]]%Ho'.
      + specialize (Ho Hoff). lia.
      + unfold MAX_CONSECUTIVE_CONN_ERRORS in Hmax. lia. }
  split; [done|]. split; [done|].
  intros msg Hm. apply Ho.
  pose proof (exec_Inv _ _ _ Hex) as (_ & _ & _ & _ & _ & Hmain).
  rewrite Hm in Hmain. by destruct Hmain.
Qed.

Lemma step_frozen (s s' : State) (e : Event) :
  signal_aborted a s = true → step a s e = Some s' → same_data s s'.
Proof.
  intros Hab [(_ & _ & Hsame) | [(_ & Hc & ->) | (j & net & s1 & r & -> & _ & Ht & Hsame)]]%step_data.
  - done.
  - unfold abort, same_data. rewrite Hc. simpl. split_and!; try done.
    unfold signal_aborted in Hab. rewrite Hc in Hab. done.
  - unfold task in Ht. rewrite Hab in Ht. by injection Ht as <- _.
Qed.

Lemma exec_from_frozen (evs : list Event) (s s' : State) :
  signal_aborted a s = true → exec_from a s evs = Some s' → same_data s s'.
Proof.
  revert s. induction evs as [|e evs IH]; intros s Hab Hex; simpl in Hex.
  - injection Hex as <-. apply same_data_refl.
  - destruct (step a s e) as [s1|] eqn:Hstep; [|done].
    eapply same_data_trans; [by eapply step_frozen|].
    apply IH; [|done]. by eapply step_signal_mono.
Qed.

(** X19.  Cancellation is not an error: once the signal is aborted with the
    circuit closed, the call never throws, the circuit never opens, the
    callback is called no more, and the records accumulated so far are the
    ones the call returns. *)
Theorem cancelled_run_returns (evs evs' : list Event) (s s' : State) :
  exec a evs = Some s → signal_aborted a s = true → offline s = false →
  exec_from a s evs' = Some s' →
  offline s' = false ∧ (∀ msg, main s' ≠ Thrown msg) ∧
  progress s' = progress s ∧ results s' = results s ∧
  (∀ rs, main s' = Returned rs → rs = results s).
Proof.
  intros Hex Hab Hoff Hex'.
  destruct (exec_from_frozen _ _ _ Hab Hex') as (_ & _ & _ & Hr & Hp & Ho).
  pose proof (exec_from_Inv _ _ _ _ (exec_Inv _ _ _ Hex) Hex')
    as (_ & _ & _ & _ & _ & Hmain).
  split_and!; try done.
  - by rewrite Ho.
  - intros msg Hm. rewrite Hm in Hmain. destruct Hmain as [_ Ht]. congruence.
  - intros rs Hm. rewrite Hm in Hmain. destruct Hmain as (-> & _). done.
Qed.

(** X20.  The call cannot hang on its own: while it is suspended some
    fetch is in flight, the answer of a fetch in flight can always be
    taken, and once every admitted fetch has answered the call has
    returned the accumulated records or thrown the outage error. *)
Theorem run_ends_when_fetches_settle (evs : list Event) (s : State) :
  exec a evs = Some s →
  (∀ i, main s = AwaitRace i → active s ≠ ∅) ∧
  (main s = AwaitAllSettled → active s ≠ ∅) ∧
  (∀ j net, j ∈ active s → is_Some (step a s (Settle j net))) ∧
  (main s ≠ NotCalled → active s = ∅ →
     main s = Returned (results s) ∨ main s = Thrown PREFEITURA_OFFLINE).
Proof.
  intros Hex. pose proof (exec_Inv _ _ _ Hex) as (_ & _ & _ & _ & _ & Hmain).
  split_and!.
  - intros i Hm He. rewrite Hm in Hmain. destruct Hmain as (_ & _ & Hfull & _).
    rewrite He, size_empty in Hfull. done.
  - intros Hm. rewrite Hm in Hmain. by destruct Hmain.
  - intros j net Hj. by apply settle_enabled.
  - intros Hcalled He.
    destruct (settled_run_is_over _ _ _ Hex Hcalled He) as [? | [? _]]; auto.
Qed.

End ControllerMore.

(** * More runs *)

Section MoreExamples.

Import Sample.

Lemma admission_order_witness :
  let s := final (args 1 25 true) [Start] in
  NoDup (launched s) ∧ ∀ j, j ∈ launched s → 1 ≤ j ≤ 25.
Proof.
  intros s.
  assert (exec (args 1 25 true) [Start] = Some s) as Hex
    by (vm_compute; reflexivity).
  destruct (admission_order (args 1 25 true) [Start] s Hex) as (_ & Hnd & Hin & _).
  split; [exact Hnd | exact Hin].
Defined.

Lemma records_labelled_in_range_witness :
  let s := final (args 1 3 true) mixed in
  results s ≠ [] ∧
  ∀ r, r ∈ results s →
    ∃ j, 1 ≤ j ≤ 3 ∧
         field r "Número do Processo" = Some (numero (args 1 3 true) j).
Proof.
  intros s.
  assert (exec (args 1 3 true) mixed = Some s) as Hex
    by (vm_compute; reflexivity).
  split; [vm_compute; discriminate|].
  exact (records_labelled_in_range (args 1 3 true) mixed s Hex).
Defined.

Lemma progress_never_overshoots_witness :
  let s := final (args 1 3 true) mixed in
  length (progress s) = 3%nat ∧
  ∀ k c t f, progress s !! k = Some (c, t, f) → c ≤ 3.
Proof.
  intros s.
  assert (exec (args 1 3 true) mixed = Some s) as Hex
    by (vm_compute; reflexivity).
  split; [vm_compute; reflexivity|].
  intros k c t f Hk.
  destruct (progress_never_overshoots (args 1 3 true) mixed s Hex) as (Hp & _).
  destruct (Hp k c t f Hk) as (_ & -> & Hle). exact Hle.
Defined.

Lemma first_only_bound_witness :
  let s := final (args 1 3 true) mixed in
  length (results s) = 1%nat ∧ Z.of_nat (length (results s)) ≤ doneCount s.
Proof.
  intros s.
  assert (exec (args 1 3 true) mixed = Some s) as Hex
    by (vm_compute; reflexivity).
  split; [vm_compute; reflexivity|].
  exact (proj1 (first_only_bound (args 1 3 true) mixed s eq_refl Hex)).
Defined.

Lemma nothing_to_fetch_witness :
  main (final (args 5 4 false) [Start]) = Returned [] ∧
  main (final (args 1 3 true) [Abort; Start]) = Returned [].
Proof.
  split.
  - destruct (proj1 (nothing_to_fetch (args 5 4 false))) as (s & Hex & Hm & _).
    + simpl. lia.
    + unfold final. rewrite Hex. exact Hm.
  - destruct (proj2 (nothing_to_fetch (args 1 3 true))) as (s & Hex & Hm & _).
    + reflexivity.
    + unfold final. rewrite Hex. exact Hm.
Defined.

Lemma circuit_needs_three_errors_witness :
  let s := final (args 1 3 true) three_errors in
  offline s = true ∧ (3 ≤ connection_errors (args 1 3 true) three_errors)%nat.
Proof.
  intros s.
  assert (exec (args 1 3 true) three_errors = Some s) as Hex
    by (vm_compute; reflexivity).
  assert (offline s = true) as Hoff by (vm_compute; reflexivity).
  split; [exact Hoff|].
  destruct (circuit_needs_three_errors (args 1 3 true) three_errors s Hex)
    as (_ & Ho & _).
  exact (Ho Hoff).
Defined.

Lemma cancelled_run_returns_witness :
  let s := final (args 1 3 true) [Start; Settle 2 net_ok; Abort] in
  let s' := final (args 1 3 true)
              [Start; Settle 2 net_ok; Abort; Settle 1 net_down;
               Settle 3 net_down] in
  offline s' = false ∧ main s' = Returned (results s) ∧ results s ≠ [].
Proof.
  intros s s'.
  assert (exec (args 1 3 true) [Start; Settle 2 net_ok; Abort] = Some s) as Hex
    by (vm_compute; reflexivity).
  assert (exec_from (args 1 3 true) s [Settle 1 net_down; Settle 3 net_down]
          = Some s') as Hex' by (vm_compute; reflexivity).
  destruct (cancelled_run_returns (args 1 3 true) _ _ s s' Hex eq_refl eq_refl Hex')
    as (Hoff & _ & _ & Hres & _).
  split; [exact Hoff|]. split; [|vm_compute; discriminate].
  rewrite <- Hres. vm_compute. reflexivity.
Defined.

Lemma run_ends_when_fetches_settle_witness :
  let s := final (args 1 3 true) mixed in
  active s = ∅ ∧
  (main s = Returned (results s) ∨ main s = Thrown PREFEITURA_OFFLINE).
Proof.
  intros s.
  assert (exec (args 1 3 true) mixed = Some s) as Hex
    by (vm_compute; reflexivity).
  assert (active s = ∅) as He by (vm_compute; reflexivity).
  split; [exact He|].
  destruct (run_ends_when_fetches_settle (args 1 3 true) mixed s Hex)
    as (_ & _ & _ & Hover).
  apply Hover; [vm_compute; discriminate | exact He].
Defined.

End MoreExamples.
